(** * winx/device: IOCTL control-code codec, probe classifier and discovery

    A shallow embedding of the IOCTL part of package [device] (decoding,
    formatting, probing and scanning of device-control codes) and the
    properties its design document states about it.

    Conventions.
    - A Go [uint32] is a [Z] in the range [0, 2^32); the operations that can
      leave the range ([code++], [<<]) wrap explicitly, see [U32].
    - A Go [error] is either a [syscall.Errno] or an error of another type.
    - [DeviceIoControl] is a binding over kernel32.  The driver behind a
      handle is a transition function on an abstract driver state, and every
      call is appended to a call log, so that the number and the order of the
      probes a scan issues can be stated.
    - A loop whose counter is a [uint32] takes fuel; running out of fuel is
      the result [None], and a scan returns when some amount of fuel yields
      [Some]. *)

From Stdlib Require Import ZArith Lia Bool String Ascii List.
From stdpp Require Import base option list gmap strings sorting.

Local Open Scope Z_scope.

(** ** Machine integers *)

Module U32.

Definition modulus : Z := 2 ^ 32.

(** [math.MaxUint32]. *)
Definition max : Z := 0xFFFFFFFF.

Definition wrap32 (x : Z) : Z := x mod modulus.

Definition is_u32 (x : Z) : Prop := 0 <= x < modulus.

(** [a << n] on [uint32]: the bits shifted past bit 31 are lost. *)
Definition shl (a n : Z) : Z := wrap32 (Z.shiftl a n).

(** [a >> n] on [uint32]. *)
Definition shr (a n : Z) : Z := Z.shiftr a n.

(** [x++] on [uint32]: [0xFFFFFFFF] is followed by [0]. *)
Definition incr (x : Z) : Z := wrap32 (x + 1).

End U32.

(** ** constants.go *)

(** Modelled from the spec: the [METHOD_*] and [FILE_*_ACCESS] constants of
    constants.go, a file that is not among the sources.  The layout comment
    of [IOCTLComponents] fixes the values: methods 0=BUFFERED, 1=IN_DIRECT,
    2=OUT_DIRECT, 3=NEITHER; access 0=ANY, 1=READ, 2=WRITE. *)
Definition METHOD_BUFFERED : Z := 0.
Definition METHOD_IN_DIRECT : Z := 1.
Definition METHOD_OUT_DIRECT : Z := 2.
Definition METHOD_NEITHER : Z := 3.

Definition FILE_ANY_ACCESS : Z := 0.
Definition FILE_READ_ACCESS : Z := 1.
Definition FILE_WRITE_ACCESS : Z := 2.

(** Modelled from the spec: [CTL_CODE] of constants.go, a file that is not
    among the sources.  The design fixes the layout (bits 31-16 device type,
    15-14 access, 13-2 function, 1-0 method) and asks that an out-of-range
    input is masked to the width of its field, never rejected. *)
Definition CTL_CODE (deviceType function method access : Z) : Z :=
  Z.lor (Z.lor (Z.lor (U32.shl (Z.land deviceType 0xFFFF) 16)
                      (U32.shl (Z.land access 0x3) 14))
               (U32.shl (Z.land function 0xFFF) 2))
        (Z.land method 0x3).

(** Modelled from the spec: the [FILE_DEVICE_*] constants of constants.go.
    They are the device types the OS defines, [0x01] to [0x3B]; the tests
    of the package give DISK = 0x07, NETWORK = 0x12, MASS_STORAGE = 0x2D
    and [0x3B] as the last known value. *)
Definition FILE_DEVICE_BEEP : Z := 0x01.
Definition FILE_DEVICE_CD_ROM : Z := 0x02.
Definition FILE_DEVICE_CD_ROM_FILE_SYSTEM : Z := 0x03.
Definition FILE_DEVICE_CONTROLLER : Z := 0x04.
Definition FILE_DEVICE_DATALINK : Z := 0x05.
Definition FILE_DEVICE_DFS : Z := 0x06.
Definition FILE_DEVICE_DISK : Z := 0x07.
Definition FILE_DEVICE_DISK_FILE_SYSTEM : Z := 0x08.
Definition FILE_DEVICE_FILE_SYSTEM : Z := 0x09.
Definition FILE_DEVICE_INPORT_PORT : Z := 0x0A.
Definition FILE_DEVICE_KEYBOARD : Z := 0x0B.
Definition FILE_DEVICE_MAILSLOT : Z := 0x0C.
Definition FILE_DEVICE_MIDI_IN : Z := 0x0D.
Definition FILE_DEVICE_MIDI_OUT : Z := 0x0E.
Definition FILE_DEVICE_MOUSE : Z := 0x0F.
Definition FILE_DEVICE_MULTI_UNC_PROVIDER : Z := 0x10.
Definition FILE_DEVICE_NAMED_PIPE : Z := 0x11.
Definition FILE_DEVICE_NETWORK : Z := 0x12.
Definition FILE_DEVICE_NETWORK_BROWSER : Z := 0x13.
Definition FILE_DEVICE_NETWORK_FILE_SYSTEM : Z := 0x14.
Definition FILE_DEVICE_NULL : Z := 0x15.
Definition FILE_DEVICE_PARALLEL_PORT : Z := 0x16.
Definition FILE_DEVICE_PHYSICAL_NETCARD : Z := 0x17.
Definition FILE_DEVICE_PRINTER : Z := 0x18.
Definition FILE_DEVICE_SCANNER : Z := 0x19.
Definition FILE_DEVICE_SERIAL_MOUSE_PORT : Z := 0x1A.
Definition FILE_DEVICE_SERIAL_PORT : Z := 0x1B.
Definition FILE_DEVICE_SCREEN : Z := 0x1C.
Definition FILE_DEVICE_SOUND : Z := 0x1D.
Definition FILE_DEVICE_STREAMS : Z := 0x1E.
Definition FILE_DEVICE_TAPE : Z := 0x1F.
Definition FILE_DEVICE_TAPE_FILE_SYSTEM : Z := 0x20.
Definition FILE_DEVICE_TRANSPORT : Z := 0x21.
Definition FILE_DEVICE_UNKNOWN : Z := 0x22.
Definition FILE_DEVICE_VIDEO : Z := 0x23.
Definition FILE_DEVICE_VIRTUAL_DISK : Z := 0x24.
Definition FILE_DEVICE_WAVE_IN : Z := 0x25.
Definition FILE_DEVICE_WAVE_OUT : Z := 0x26.
Definition FILE_DEVICE_8042_PORT : Z := 0x27.
Definition FILE_DEVICE_NETWORK_REDIRECTOR : Z := 0x28.
Definition FILE_DEVICE_BATTERY : Z := 0x29.
Definition FILE_DEVICE_BUS_EXTENDER : Z := 0x2A.
Definition FILE_DEVICE_MODEM : Z := 0x2B.
Definition FILE_DEVICE_VDM : Z := 0x2C.
Definition FILE_DEVICE_MASS_STORAGE : Z := 0x2D.
Definition FILE_DEVICE_SMB : Z := 0x2E.
Definition FILE_DEVICE_KS : Z := 0x2F.
Definition FILE_DEVICE_CHANGER : Z := 0x30.
Definition FILE_DEVICE_SMARTCARD : Z := 0x31.
Definition FILE_DEVICE_ACPI : Z := 0x32.
Definition FILE_DEVICE_DVD : Z := 0x33.
Definition FILE_DEVICE_FULLSCREEN_VIDEO : Z := 0x34.
Definition FILE_DEVICE_DFS_FILE_SYSTEM : Z := 0x35.
Definition FILE_DEVICE_DFS_VOLUME : Z := 0x36.
Definition FILE_DEVICE_SERENUM : Z := 0x37.
Definition FILE_DEVICE_TERMSRV : Z := 0x38.
Definition FILE_DEVICE_KSEC : Z := 0x39.
Definition FILE_DEVICE_FIPS : Z := 0x3A.
Definition FILE_DEVICE_INFINIBAND : Z := 0x3B.

(** Modelled from the spec: the [IOCTL_*] constants of constants.go, the
    codes the OS assigns to these names.  The tests of the package give
    IOCTL_DISK_GET_DRIVE_GEOMETRY = 0x00070000, IOCTL_DISK_GET_PARTITION_INFO
    = 0x00074004, function 3 for the drive layout and function 0x500 on
    MASS_STORAGE for the property query. *)
Definition IOCTL_DISK_GET_DRIVE_GEOMETRY : Z := 0x00070000.
Definition IOCTL_DISK_GET_PARTITION_INFO : Z := 0x00074004.
Definition IOCTL_DISK_GET_DRIVE_LAYOUT : Z := 0x0007400C.
Definition IOCTL_STORAGE_GET_DEVICE_NUMBER : Z := 0x002D1080.
Definition IOCTL_STORAGE_QUERY_PROPERTY : Z := 0x002D1400.
Definition IOCTL_VOLUME_GET_VOLUME_DISK_EXTENTS : Z := 0x00560000.

(** ** IOCTL code decoding functions *)

Definition ExtractDeviceType (ioctlCode : Z) : Z :=
  Z.land (U32.shr ioctlCode 16) 0xFFFF.

Definition ExtractFunction (ioctlCode : Z) : Z :=
  Z.land (U32.shr ioctlCode 2) 0xFFF.

Definition ExtractMethod (ioctlCode : Z) : Z :=
  Z.land ioctlCode 0x3.

Definition ExtractAccess (ioctlCode : Z) : Z :=
  Z.land (U32.shr ioctlCode 14) 0x3.

(** ** Lookup maps for IOCTL components *)

Definition deviceTypeNames : gmap Z string :=
  list_to_map
    [ (FILE_DEVICE_BEEP, "BEEP"%string);
      (FILE_DEVICE_CD_ROM, "CD_ROM"%string);
      (FILE_DEVICE_CD_ROM_FILE_SYSTEM, "CD_ROM_FILE_SYSTEM"%string);
      (FILE_DEVICE_CONTROLLER, "CONTROLLER"%string);
      (FILE_DEVICE_DATALINK, "DATALINK"%string);
      (FILE_DEVICE_DFS, "DFS"%string);
      (FILE_DEVICE_DISK, "DISK"%string);
      (FILE_DEVICE_DISK_FILE_SYSTEM, "DISK_FILE_SYSTEM"%string);
      (FILE_DEVICE_FILE_SYSTEM, "FILE_SYSTEM"%string);
      (FILE_DEVICE_INPORT_PORT, "INPORT_PORT"%string);
      (FILE_DEVICE_KEYBOARD, "KEYBOARD"%string);
      (FILE_DEVICE_MAILSLOT, "MAILSLOT"%string);
      (FILE_DEVICE_MIDI_IN, "MIDI_IN"%string);
      (FILE_DEVICE_MIDI_OUT, "MIDI_OUT"%string);
      (FILE_DEVICE_MOUSE, "MOUSE"%string);
      (FILE_DEVICE_MULTI_UNC_PROVIDER, "MULTI_UNC_PROVIDER"%string);
      (FILE_DEVICE_NAMED_PIPE, "NAMED_PIPE"%string);
      (FILE_DEVICE_NETWORK, "NETWORK"%string);
      (FILE_DEVICE_NETWORK_BROWSER, "NETWORK_BROWSER"%string);
      (FILE_DEVICE_NETWORK_FILE_SYSTEM, "NETWORK_FILE_SYSTEM"%string);
      (FILE_DEVICE_NULL, "NULL"%string);
      (FILE_DEVICE_PARALLEL_PORT, "PARALLEL_PORT"%string);
      (FILE_DEVICE_PHYSICAL_NETCARD, "PHYSICAL_NETCARD"%string);
      (FILE_DEVICE_PRINTER, "PRINTER"%string);
      (FILE_DEVICE_SCANNER, "SCANNER"%string);
      (FILE_DEVICE_SERIAL_MOUSE_PORT, "SERIAL_MOUSE_PORT"%string);
      (FILE_DEVICE_SERIAL_PORT, "SERIAL_PORT"%string);
      (FILE_DEVICE_SCREEN, "SCREEN"%string);
      (FILE_DEVICE_SOUND, "SOUND"%string);
      (FILE_DEVICE_STREAMS, "STREAMS"%string);
      (FILE_DEVICE_TAPE, "TAPE"%string);
      (FILE_DEVICE_TAPE_FILE_SYSTEM, "TAPE_FILE_SYSTEM"%string);
      (FILE_DEVICE_TRANSPORT, "TRANSPORT"%string);
      (FILE_DEVICE_UNKNOWN, "UNKNOWN"%string);
      (FILE_DEVICE_VIDEO, "VIDEO"%string);
      (FILE_DEVICE_VIRTUAL_DISK, "VIRTUAL_DISK"%string);
      (FILE_DEVICE_WAVE_IN, "WAVE_IN"%string);
      (FILE_DEVICE_WAVE_OUT, "WAVE_OUT"%string);
      (FILE_DEVICE_8042_PORT, "8042_PORT"%string);
      (FILE_DEVICE_NETWORK_REDIRECTOR, "NETWORK_REDIRECTOR"%string);
      (FILE_DEVICE_BATTERY, "BATTERY"%string);
      (FILE_DEVICE_BUS_EXTENDER, "BUS_EXTENDER"%string);
      (FILE_DEVICE_MODEM, "MODEM"%string);
      (FILE_DEVICE_VDM, "VDM"%string);
      (FILE_DEVICE_MASS_STORAGE, "MASS_STORAGE"%string);
      (FILE_DEVICE_SMB, "SMB"%string);
      (FILE_DEVICE_KS, "KS"%string);
      (FILE_DEVICE_CHANGER, "CHANGER"%string);
      (FILE_DEVICE_SMARTCARD, "SMARTCARD"%string);
      (FILE_DEVICE_ACPI, "ACPI"%string);
      (FILE_DEVICE_DVD, "DVD"%string);
      (FILE_DEVICE_FULLSCREEN_VIDEO, "FULLSCREEN_VIDEO"%string);
      (FILE_DEVICE_DFS_FILE_SYSTEM, "DFS_FILE_SYSTEM"%string);
      (FILE_DEVICE_DFS_VOLUME, "DFS_VOLUME"%string);
      (FILE_DEVICE_SERENUM, "SERENUM"%string);
      (FILE_DEVICE_TERMSRV, "TERMSRV"%string);
      (FILE_DEVICE_KSEC, "KSEC"%string);
      (FILE_DEVICE_FIPS, "FIPS"%string);
      (FILE_DEVICE_INFINIBAND, "INFINIBAND"%string) ].

Definition methodNames : gmap Z string :=
  list_to_map
    [ (METHOD_BUFFERED, "BUFFERED"%string);
      (METHOD_IN_DIRECT, "IN_DIRECT"%string);
      (METHOD_OUT_DIRECT, "OUT_DIRECT"%string);
      (METHOD_NEITHER, "NEITHER"%string) ].

Definition accessNames : gmap Z string :=
  list_to_map
    [ (FILE_ANY_ACCESS, "ANY"%string);
      (FILE_READ_ACCESS, "READ"%string);
      (FILE_WRITE_ACCESS, "WRITE"%string);
      (3, "READ_WRITE"%string) ].

Definition knownIOCTLs : gmap Z string :=
  list_to_map
    [ (IOCTL_DISK_GET_DRIVE_GEOMETRY, "IOCTL_DISK_GET_DRIVE_GEOMETRY"%string);
      (IOCTL_DISK_GET_PARTITION_INFO, "IOCTL_DISK_GET_PARTITION_INFO"%string);
      (IOCTL_DISK_GET_DRIVE_LAYOUT, "IOCTL_DISK_GET_DRIVE_LAYOUT"%string);
      (IOCTL_STORAGE_GET_DEVICE_NUMBER,
        "IOCTL_STORAGE_GET_DEVICE_NUMBER"%string);
      (IOCTL_STORAGE_QUERY_PROPERTY, "IOCTL_STORAGE_QUERY_PROPERTY"%string);
      (IOCTL_VOLUME_GET_VOLUME_DISK_EXTENTS,
        "IOCTL_VOLUME_GET_VOLUME_DISK_EXTENTS"%string) ].

(** ** Name lookup functions *)

Definition GetDeviceTypeName (deviceType : Z) : string :=
  match deviceTypeNames !! deviceType with
  | Some name => name
  | None => if 0x8000 <=? deviceType then "CUSTOM" else "UNKNOWN"
  end.

Definition GetMethodName (method : Z) : string :=
  match methodNames !! method with
  | Some name => name
  | None => "INVALID"
  end.

Definition GetAccessName (access : Z) : string :=
  match accessNames !! access with
  | Some name => name
  | None => "INVALID"
  end.

(** The pair [(name, found)] of the Go function is an [option]. *)
Definition LookupKnownIOCTL (ioctlCode : Z) : option string :=
  knownIOCTLs !! ioctlCode.

(** ** IOCTL decoder *)

Record IOCTLComponents : Type := {
  IOCTLCode : Z;
  DeviceType : Z;
  DeviceTypeName : string;
  Function : Z;
  Method : Z;
  MethodName : string;
  Access : Z;
  AccessName : string;
  KnownName : string
}.

Definition DecodeIOCTL (ioctlCode : Z) : IOCTLComponents :=
  let deviceType := ExtractDeviceType ioctlCode in
  let function := ExtractFunction ioctlCode in
  let method := ExtractMethod ioctlCode in
  let access := ExtractAccess ioctlCode in
  {| IOCTLCode := ioctlCode;
     DeviceType := deviceType;
     DeviceTypeName := GetDeviceTypeName deviceType;
     Function := function;
     Method := method;
     MethodName := GetMethodName method;
     Access := access;
     AccessName := GetAccessName access;
     KnownName := match LookupKnownIOCTL ioctlCode with
                  | Some name => name
                  | None => EmptyString
                  end |}.

(** ** IOCTL formatting functions *)

Module Fmt.

(** One upper-case hexadecimal digit. *)
Definition hexDigit (d : Z) : ascii :=
  match d with
  | 0 => "0" | 1 => "1" | 2 => "2" | 3 => "3"
  | 4 => "4" | 5 => "5" | 6 => "6" | 7 => "7"
  | 8 => "8" | 9 => "9" | 10 => "A" | 11 => "B"
  | 12 => "C" | 13 => "D" | 14 => "E" | _ => "F"
  end%char.

(** The digits of [v], most significant first, written in front of [acc];
    [fuel] bounds the number of digits. *)
Fixpoint hexDigits (fuel : nat) (v : Z) (acc : string) : string :=
  match fuel with
  | O => acc
  | S fuel' =>
      let acc' := String (hexDigit (v mod 16)) acc in
      if v / 16 =? 0 then acc' else hexDigits fuel' (v / 16) acc'
  end.

(** [fmt.Sprintf("%X", v)] for a [uint32], which has at most 8 digits. *)
Definition X (v : Z) : string := hexDigits 8 v EmptyString.

Fixpoint zeros (n : nat) : string :=
  match n with
  | O => EmptyString
  | S n' => String "0"%char (zeros n')
  end.

(** [fmt.Sprintf("%0wX", v)]: [%X] padded with zeros on the left up to the
    width [w]; a longer number is not cut. *)
Definition X0 (w : nat) (v : Z) : string :=
  let s := X v in zeros (w - String.length s) +:+ s.

End Fmt.

(** [strings.Contains]. *)
Fixpoint Contains (s substr : string) : bool :=
  String.prefix substr s ||
  match s with
  | EmptyString => false
  | String _ s' => Contains s' substr
  end.

(** The [strings.Builder] is the string written so far. *)
Definition FormatIOCTL (ioctlCode : Z) : string :=
  let components := DecodeIOCTL ioctlCode in
  let result := EmptyString in
  let result :=
    if negb (String.eqb (KnownName components) EmptyString)
    then result +:+ KnownName components +:+ ": "
    else result in
  let result := result +:+ DeviceTypeName components in
  let result := result +:+ "(function:0x" in
  let result := result +:+ Fmt.X (Function components) in
  let result := result +:+ ", method:" in
  let result := result +:+ MethodName components in
  let result := result +:+ ", access:" in
  let result := result +:+ AccessName components in
  let result := result +:+ ")" in
  result.

Definition FormatIOCTLHex (ioctlCode : Z) : string :=
  let components := DecodeIOCTL ioctlCode in
  "0x" +:+ Fmt.X0 8 (IOCTLCode components) +:+
  " [Device:0x" +:+ Fmt.X0 4 (DeviceType components) +:+
  " Access:0x" +:+ Fmt.X (Access components) +:+
  " Func:0x" +:+ Fmt.X0 3 (Function components) +:+
  " Method:0x" +:+ Fmt.X (Method components) +:+ "]".

(** ** IOCTL discovery and probing *)

(** A Go [error] value that is not [nil]: a [syscall.Errno], or an error of
    any other dynamic type (of which only a description is kept). *)
Inductive error : Type :=
  | Errno (errno : Z)
  | OtherError (description : string).

(** The Windows error codes [ProbeIOCTL] names: three from package [syscall],
    six declared next to it. *)
Definition ERROR_ACCESS_DENIED : Z := 5.
Definition ERROR_INSUFFICIENT_BUFFER : Z := 122.
Definition ERROR_MORE_DATA : Z := 234.

Definition ERROR_INVALID_FUNCTION : Z := 1.
Definition ERROR_INVALID_PARAMETER : Z := 87.
Definition ERROR_BAD_LENGTH : Z := 24.
Definition ERROR_INVALID_USER_BUFFER : Z := 1784.
Definition ERROR_NOT_SUPPORTED : Z := 50.
Definition ERROR_CALL_NOT_IMPLEMENTED : Z := 120.

Record IOCTLProbeResult : Type := {
  Code : Z;
  Valid : bool;
  ErrorCode : option error;
  BytesReturned : Z
}.

(** [handle.HANDLE] is a [uintptr]. *)
Definition HANDLE : Type := Z.

(** What one call of [DeviceIoControl] yields: the pair [(bool, error)] it
    returns and the value it stores through [bytesReturned]. *)
Record IoControlResult : Type := {
  io_success : bool;
  io_err : option error;
  io_bytesReturned : Z
}.

(** One entry of the call log. *)
Record IoControlCall : Type := {
  call_handle : HANDLE;
  call_code : Z;
  call_inBufferSize : Z;
  call_outBufferSize : Z;
  call_result : IoControlResult
}.

(** The [switch errno] of [ProbeIOCTL]: the value the selected case assigns
    to [result.Valid]. *)
Definition errnoSwitch (errno : Z) : bool :=
  if (errno =? ERROR_INSUFFICIENT_BUFFER) || (errno =? ERROR_MORE_DATA)
     || (errno =? ERROR_INVALID_PARAMETER) || (errno =? ERROR_BAD_LENGTH)
     || (errno =? ERROR_INVALID_USER_BUFFER) || (errno =? ERROR_ACCESS_DENIED)
  then true
  else if (errno =? ERROR_INVALID_FUNCTION) || (errno =? ERROR_NOT_SUPPORTED)
          || (errno =? ERROR_CALL_NOT_IMPLEMENTED)
  then false
  else true.

(** The value [ProbeIOCTL] leaves in [result.Valid] for the error [err] of
    the call; [Valid] starts at its zero value [false], which the type
    assertion [err.(syscall.Errno)] leaves in place when it fails. *)
Definition validFor (err : option error) : bool :=
  match err with
  | None => true
  | Some e =>
      match e with
      | Errno errno => errnoSwitch errno
      | OtherError _ => false
      end
  end.


(** ** Reading the call log *)

(** The logged call was classified as recognized. *)
Definition recognized (c : IoControlCall) : Prop :=
  validFor (io_err (call_result c)) = true.

#[global] Instance recognized_dec (c : IoControlCall)
    : Decision (recognized c) :=
  decide (validFor (io_err (call_result c)) = true).

(** The probe result [ProbeIOCTL] makes of a logged call. *)
Definition resultOf (c : IoControlCall) : IOCTLProbeResult :=
  {| Code := call_code c;
     Valid := validFor (io_err (call_result c));
     ErrorCode := io_err (call_result c);
     BytesReturned := io_bytesReturned (call_result c) |}.

(** The logged call is a probe on [hDevice]: that handle, a 16-byte input
    buffer and a 256-byte output buffer. *)
Definition probeOn (hDevice : HANDLE) (c : IoControlCall) : Prop :=
  call_handle c = hDevice
  /\ call_inBufferSize c = 16
  /\ call_outBufferSize c = 256.

Section Engine.

(** The state of the driver behind the handles, and its reaction to one
    device-control request [(state, handle, code, inBufferSize,
    outBufferSize)]. *)
Context {DriverState : Type}.
Variable driver :
  DriverState -> HANDLE -> Z -> Z -> Z -> IoControlResult * DriverState.

(** The system state: the driver and the log of the calls made so far,
    oldest first. *)
Record System : Type := {
  sys_driver : DriverState;
  sys_calls : list IoControlCall
}.

(** Computations on the system; [None] is a loop that ran out of fuel. *)
Definition M (A : Type) : Type := System -> option (A * System).

#[global] Instance M_ret : MRet M := fun A (x : A) s => Some (x, s).

#[global] Instance M_bind : MBind M := fun A B (f : A -> M B) (m : M A) s =>
  match m s with
  | Some (x, s') => f x s'
  | None => None
  end.

Definition outOfFuel {A : Type} : M A := fun _ => None.

(** [for i := first; i <= last; i++ { acc = body(i, acc) }] with a [uint32]
    counter.  The condition is tested before the fuel. *)
Fixpoint forUint32 {A : Type} (fuel : nat) (i last : Z)
    (body : Z -> A -> M A) (acc : A) : M A :=
  if i <=? last then
    match fuel with
    | O => outOfFuel
    | S fuel' =>
        acc' ← body i acc;
        forUint32 fuel' (U32.incr i) last body acc'
    end
  else mret acc.

(** The binding over kernel32's DeviceIoControl: the driver reacts, the call
    is logged. *)
Definition DeviceIoControl (hDevice : HANDLE) (ioControlCode : Z)
    (inBufferSize outBufferSize : Z) : M IoControlResult :=
  fun s =>
    let '(r, d) :=
      driver (sys_driver s) hDevice ioControlCode inBufferSize outBufferSize in
    Some (r, {| sys_driver := d;
                sys_calls := sys_calls s ++
                  [ {| call_handle := hDevice;
                       call_code := ioControlCode;
                       call_inBufferSize := inBufferSize;
                       call_outBufferSize := outBufferSize;
                       call_result := r |} ] |}).

Definition ProbeIOCTL (hDevice : HANDLE) (ioctlCode : Z) : M IOCTLProbeResult :=
  let inBuf := 16 in
  let outBuf := 256 in
  r ← DeviceIoControl hDevice ioctlCode inBuf outBuf;
  let bytesReturned := io_bytesReturned r in
  let err := io_err r in
  mret {| Code := ioctlCode;
          Valid := validFor err;
          ErrorCode := err;
          BytesReturned := bytesReturned |}.

Definition ScanIOCTLRange (fuel : nat) (hDevice : HANDLE)
    (startCode endCode : Z) : M (list IOCTLProbeResult) :=
  forUint32 fuel startCode endCode
    (fun code results =>
       result ← ProbeIOCTL hDevice code;
       mret (if Valid result then results ++ [result] else results))
    [].

Definition functionRanges : list (Z * Z) :=
  [ (0x000, 0x100); (0x400, 0x600); (0x800, 0x900); (0xF00, 0xFFF) ].

Definition methods : list Z :=
  [ METHOD_BUFFERED; METHOD_IN_DIRECT; METHOD_OUT_DIRECT; METHOD_NEITHER ].

Definition accessLevels : list Z :=
  [ FILE_ANY_ACCESS; FILE_READ_ACCESS; FILE_WRITE_ACCESS; 3 ].

(** [for _, access := range accessLevels] for one method; [Some result] is
    the jump [goto nextFunction] taken with [result] appended. *)
Fixpoint accessLoop (hDevice : HANDLE) (deviceType function method : Z)
    (levels : list Z) : M (option IOCTLProbeResult) :=
  match levels with
  | [] => mret None
  | access :: levels' =>
      let code := CTL_CODE deviceType function method access in
      result ← ProbeIOCTL hDevice code;
      if Valid result then mret (Some result)
      else accessLoop hDevice deviceType function method levels'
  end.

(** [for _, method := range methods]. *)
Fixpoint methodLoop (hDevice : HANDLE) (deviceType function : Z)
    (ms : list Z) : M (option IOCTLProbeResult) :=
  match ms with
  | [] => mret None
  | method :: ms' =>
      hit ← accessLoop hDevice deviceType function method accessLevels;
      match hit with
      | Some result => mret (Some result)
      | None => methodLoop hDevice deviceType function ms'
      end
  end.

(** [for _, funcRange := range functionRanges]. *)
Fixpoint rangeLoop (fuel : nat) (hDevice : HANDLE) (deviceType : Z)
    (ranges : list (Z * Z)) (results : list IOCTLProbeResult)
    : M (list IOCTLProbeResult) :=
  match ranges with
  | [] => mret results
  | funcRange :: ranges' =>
      results' ←
        forUint32 fuel (fst funcRange) (snd funcRange)
          (fun function results =>
             hit ← methodLoop hDevice deviceType function methods;
             mret (match hit with
                   | Some result => results ++ [result]
                   | None => results
                   end))
          results;
      rangeLoop fuel hDevice deviceType ranges' results'
  end.

Definition DiscoverIOCTLsByDeviceType (fuel : nat) (hDevice : HANDLE)
    (deviceType : Z) : M (list IOCTLProbeResult) :=
  rangeLoop fuel hDevice deviceType functionRanges [].

(** *** Runs of the system *)

(** The logged calls, made in this order from the driver state [d], were
    answered by the driver as logged and left it in the state [d']. *)
Fixpoint answered (d : DriverState) (calls : list IoControlCall)
    (d' : DriverState) : Prop :=
  match calls with
  | [] => d' = d
  | c :: calls' =>
      call_result c =
        fst (driver d (call_handle c) (call_code c)
               (call_inBufferSize c) (call_outBufferSize c))
      /\ answered
           (snd (driver d (call_handle c) (call_code c)
                   (call_inBufferSize c) (call_outBufferSize c)))
           calls' d'
  end.

(** The system went from [s] to [s'] by making exactly the calls [calls]. *)
Definition madeCalls (s : System) (calls : list IoControlCall)
    (s' : System) : Prop :=
  sys_calls s' = sys_calls s ++ calls
  /\ answered (sys_driver s) calls (sys_driver s').

(** The body of a counting loop run once for each index of a list, in
    order. *)
Fixpoint forEach {A : Type} (indices : list Z)
    (body : Z -> A -> M A) (acc : A) : M A :=
  match indices with
  | [] => fun s => Some (acc, s)
  | i :: indices' =>
      fun s =>
        match body i acc s with
        | Some (acc', s') => forEach indices' body acc' s'
        | None => None
        end
  end.

End Engine.

Arguments System DriverState : clear implicits.
Arguments M DriverState A : clear implicits.

(** ** The search space of the targeted scan *)

(** The integers of the closed interval [first, last], ascending. *)
Definition closedRange (first last : Z) : list Z :=
  seqZ first (last - first + 1).

(** The function values of the four sub-ranges, in scan order. *)
Definition scannedFunctions : list Z :=
  closedRange 0x000 0x100 ++ closedRange 0x400 0x600
  ++ closedRange 0x800 0x900 ++ closedRange 0xF00 0xFFF.

(** The candidate codes of one method: the access levels in order. *)
Definition methodCandidates (deviceType function method : Z)
    (levels : list Z) : list Z :=
  map (fun access => CTL_CODE deviceType function method access) levels.

(** The candidate codes of one function value: the methods in order and,
    for each method, the access levels in order. *)
Definition candidatesOver (deviceType function : Z) (ms : list Z) : list Z :=
  flat_map
    (fun method => methodCandidates deviceType function method accessLevels)
    ms.

Definition candidates (deviceType function : Z) : list Z :=
  candidatesOver deviceType function methods.

(** The early-exit rule on one list of candidates: the calls probe the
    candidates in order, none of them but the last is recognized, and they
    stop with the first recognized one or, when there is none, with the
    last candidate. *)
Inductive cutAtFirstHit : list Z -> list IoControlCall -> Prop :=
  | cut_none : cutAtFirstHit [] []
  | cut_hit code codes c :
      call_code c = code ->
      recognized c ->
      cutAtFirstHit (code :: codes) [c]
  | cut_miss code codes c calls :
      call_code c = code ->
      ~ recognized c ->
      cutAtFirstHit codes calls ->
      cutAtFirstHit (code :: codes) (c :: calls).

(** ** A small driver to run the engine on *)

(** A driver without state that answers by the low bits of the function
    field: success with 4 bytes, ERROR_INSUFFICIENT_BUFFER,
    ERROR_INVALID_FUNCTION, an errno outside the named ones (31,
    ERROR_GEN_FAILURE), an error that is not an errno, and otherwise
    ERROR_NOT_SUPPORTED. *)
Definition sampleDriver (d : unit) (hDevice : HANDLE) (code : Z)
    (inBufferSize outBufferSize : Z) : IoControlResult * unit :=
  let answer :=
    match ExtractFunction code with
    | 0 => {| io_success := true; io_err := None; io_bytesReturned := 4 |}
    | 1 => {| io_success := false;
              io_err := Some (Errno ERROR_INSUFFICIENT_BUFFER);
              io_bytesReturned := 0 |}
    | 2 => {| io_success := false;
              io_err := Some (Errno ERROR_INVALID_FUNCTION);
              io_bytesReturned := 0 |}
    | 3 => {| io_success := false;
              io_err := Some (Errno 31);
              io_bytesReturned := 0 |}
    | 4 => {| io_success := false;
              io_err := Some (OtherError "not an errno");
              io_bytesReturned := 0 |}
    | _ => {| io_success := false;
              io_err := Some (Errno ERROR_NOT_SUPPORTED);
              io_bytesReturned := 0 |}
    end in
  (answer, d).

(** The system before any call. *)
Definition freshSystem : System unit :=
  {| sys_driver := tt; sys_calls := [] |}.

(** ** Reading hexadecimal text *)

(** The value of one hexadecimal digit; any other character counts 0. *)
Definition hexDigitValue (c : ascii) : Z :=
  let n := Z.of_N (N_of_ascii c) in
  if (48 <=? n) && (n <=? 57) then n - 48
  else if (65 <=? n) && (n <=? 70) then n - 55
  else 0.

(** The number a string of hexadecimal digits denotes, read after the
    digits that gave [acc]. *)
Fixpoint hexValueFrom (acc : Z) (s : string) : Z :=
  match s with
  | EmptyString => acc
  | String c s' => hexValueFrom (16 * acc + hexDigitValue c) s'
  end.

Definition hexValue (s : string) : Z := hexValueFrom 0 s.

(** ** The kernel behind [DeviceIoControl] *)

(** What one device-control system call leaves behind: the BOOL it returns,
    the last-error code of the thread, the count stored through
    [lpBytesReturned] and the bytes written to the start of the output
    buffer. *)
Record KernelAnswer : Type := {
  k_ret : Z;
  k_lastError : Z;
  k_bytesReturned : Z;
  k_output : list Z
}.

(** [syscall.GetLastError] of the Go library: [nil] for the code 0, the code
    as a [syscall.Errno] otherwise. *)
Definition GetLastError (lastError : Z) : option error :=
  if lastError =? 0 then None else Some (Errno lastError).

(** The body of the Go function [DeviceIoControl] after the system call:
    [(false, syscall.GetLastError())] when the call returned 0 and
    [(true, nil)] otherwise. *)
Definition DeviceIoControlReturn (a : KernelAnswer) : IoControlResult :=
  if k_ret a =? 0
  then {| io_success := false;
          io_err := GetLastError (k_lastError a);
          io_bytesReturned := k_bytesReturned a |}
  else {| io_success := true;
          io_err := None;
          io_bytesReturned := k_bytesReturned a |}.

(** The driver the engine sees when the calls go through [DeviceIoControl]
    to a kernel. *)
Definition kernelDriver {KernelState : Type}
    (kernel : KernelState -> HANDLE -> Z -> Z -> Z -> KernelAnswer * KernelState)
    (k : KernelState) (hDevice : HANDLE) (ioControlCode : Z)
    (inBufferSize outBufferSize : Z) : IoControlResult * KernelState :=
  let '(a, k') := kernel k hDevice ioControlCode inBufferSize outBufferSize in
  (DeviceIoControlReturn a, k').

(** A Go call either returns or panics. *)
Inductive Outcome (A : Type) : Type :=
  | Returned (a : A)
  | Panicked.

Arguments Returned {A} a.
Arguments Panicked {A}.

(** The three results of [DeviceIoControlBytes]; a [nil] slice is [None]. *)
Record BytesResult : Type := {
  bytes_data : option (list Z);
  bytes_returned : Z;
  bytes_err : option error
}.

(** [make([]byte, size)] after the kernel has written [written] to its
    start: the buffer keeps its length. *)
Definition bufferAfter (size : Z) (written : list Z) : list Z :=
  take (Z.to_nat size) (written ++ replicate (Z.to_nat size) 0).

(** [DeviceIoControlBytes].  The kernel gets the input bytes ([None] for
    the nil pointer of an empty input), and the output buffer size; the
    slice expression [outBuffer[:bytesReturned]] panics beyond the
    capacity of the buffer. *)
Definition DeviceIoControlBytes {KernelState : Type}
    (kernel : KernelState -> HANDLE -> Z -> option (list Z) -> Z -> Z
              -> KernelAnswer * KernelState)
    (hDevice : HANDLE) (ioControlCode : Z) (inBuffer : list Z)
    (outBufferSize : Z) (k : KernelState)
    : Outcome BytesResult * KernelState :=
  let '(inPtr, inSize) :=
    if (0 <? Z.of_nat (length inBuffer))
    then (Some inBuffer, Z.of_nat (length inBuffer))
    else (None, 0) in
  let '(a, k') := kernel k hDevice ioControlCode inPtr inSize outBufferSize in
  let outBuffer := bufferAfter outBufferSize (k_output a) in
  let r := DeviceIoControlReturn a in
  let bytesReturned := io_bytesReturned r in
  if negb (io_success r) then
    (Returned {| bytes_data := None; bytes_returned := 0;
                 bytes_err := io_err r |}, k')
  else if bytesReturned <=? outBufferSize then
    (Returned {| bytes_data := Some (take (Z.to_nat bytesReturned) outBuffer);
                 bytes_returned := bytesReturned;
                 bytes_err := None |}, k')
  else (Panicked, k').

(** ** MS-DOS device names *)

Section DosDevices.

(** The Go library and the system behind [QueryDosDevice]:
    - [UTF16PtrFromString] gives the error, if any, of converting a name
      (it rejects a name that contains a NUL);
    - [UTF16ToString] decodes UTF-16 code units into a string;
    - [ToLower] is [strings.ToLower];
    - [QueryDosDeviceW] is the system call: for a name pointer ([None] is
      the nil pointer) and a buffer length it gives its return value, the
      errno of the call and the code units it writes to the start of the
      buffer. *)
Context {World : Type}.
Variable UTF16PtrFromString : string -> option error.
Variable UTF16ToString : list Z -> string.
Variable ToLower : string -> string.
Variable QueryDosDeviceW :
  World -> option string -> Z -> (Z * Z * list Z) * World.

(** [buffer[start:i]]. *)
Definition slice {A : Type} (buffer : list A) (start i : nat) : list A :=
  take (i - start) (drop start buffer).

(** The loop of [QueryDosDevice] over the buffer, at index [i] with [rest]
    the part of the buffer from [i] on:
    [for i := ...; i < len(buffer); i++ { if buffer[i] == 0 { if i == start
    { break }; results = append(results, decode(buffer[start:i]));
    start = i + 1 } }]. *)
Fixpoint multiStringLoop {T : Type} (decode : list Z -> T)
    (buffer rest : list Z) (i start : nat) (results : list T) : list T :=
  match rest with
  | [] => results
  | unit :: rest' =>
      if unit =? 0 then
        if (i =? start)%nat then results
        else multiStringLoop decode buffer rest' (S i) (S i)
               (results ++ [decode (slice buffer start i)])
      else multiStringLoop decode buffer rest' (S i) start results
  end.

(** The parse of the whole buffer. *)
Definition parseMultiString {T : Type} (decode : list Z -> T)
    (buffer : list Z) : list T :=
  multiStringLoop decode buffer buffer 0 0 [].

(** [QueryDosDevice]; a result slice that is [nil] is [[]].  The buffer is
    [make([]uint16, 65536)] with what the system wrote.  The error of
    the system call is the errno of [SyscallN] stored in the variable
    [err] of type [error], which is therefore never [nil]. *)
Definition QueryDosDevice (deviceName : string) (w : World)
    : (list string * option error) * World :=
  let convert :=
    if negb (String.eqb deviceName EmptyString)
    then match UTF16PtrFromString deviceName with
         | Some err => inr err
         | None => inl (Some deviceName)
         end
    else inl None in
  match convert with
  | inr err => (([], Some err), w)
  | inl deviceNamePtr =>
      let bufferSize := 65536 in
      let '((ret, errno, written), w') :=
        QueryDosDeviceW w deviceNamePtr bufferSize in
      let buffer := bufferAfter bufferSize written in
      if ret =? 0 then (([], Some (Errno errno)), w')
      else ((parseMultiString UTF16ToString buffer, None), w')
  end.

(** The test [len(pattern) == 0 || strings.Contains(strings.ToLower(device),
    patternLower)]. *)
Definition matchesPattern (pattern device : string) : bool :=
  (String.length pattern =? 0)%nat
  || Contains (ToLower device) (ToLower pattern).

(** The loop of [FindSymbolicLinksByPattern] over the device names. *)
Fixpoint findLoop (pattern : string) (devices : list string)
    (results : gmap string (list string)) (w : World)
    : gmap string (list string) * World :=
  match devices with
  | [] => (results, w)
  | device :: devices' =>
      if matchesPattern pattern device then
        let '((targets, err), w') := QueryDosDevice device w in
        match err with
        | None =>
            if (0 <? length targets)%nat
            then findLoop pattern devices' (<[device := targets]> results) w'
            else findLoop pattern devices' results w'
        | Some _ => findLoop pattern devices' results w'
        end
      else findLoop pattern devices' results w
  end.

(** [FindSymbolicLinksByPattern]; the map is [None] when it is [nil]. *)
Definition FindSymbolicLinksByPattern (pattern : string) (w : World)
    : (option (gmap string (list string)) * option error) * World :=
  let '((allDevices, err), w') := QueryDosDevice EmptyString w in
  match err with
  | Some e => ((None, Some e), w')
  | None =>
      let '(results, w'') := findLoop pattern allDevices ∅ w' in
      ((Some results, None), w'')
  end.

End DosDevices.

(** A buffer as the system fills it: each name followed by a NUL. *)
Definition multiString (names : list (list Z)) : list Z :=
  concat (map (fun name => name ++ [0]) names).

(** ** Handles and [CreateFile] *)

(** [handle.InvalidHandleValue], [^HANDLE(0)], for a [uintptr] of [bits]
    bits. *)
Definition InvalidHandleValue (bits : Z) : Z := 2 ^ bits - 1.

(** Modelled from the spec: [INVALID_HANDLE_VALUE] of constants.go, a file
    that is not among the sources; package [handle] names [^HANDLE(0)] as
    this value. *)
Definition INVALID_HANDLE_VALUE (bits : Z) : Z := InvalidHandleValue bits.

Definition IsValidHandle (bits : Z) (h : HANDLE) : bool :=
  negb (h =? 0) && negb (h =? InvalidHandleValue bits).

Definition IsValid (bits : Z) (h : HANDLE) : bool := IsValidHandle bits h.

(** The arguments [CreateFile] hands to the system call, the security
    attributes being a pointer that may be nil. *)
Record CreateFileArgs (SecurityAttributes : Type) : Type := {
  cf_fileName : string;
  cf_desiredAccess : Z;
  cf_shareMode : Z;
  cf_securityAttributes : option SecurityAttributes;
  cf_creationDisposition : Z;
  cf_flagsAndAttributes : Z;
  cf_templateFile : HANDLE
}.

Arguments cf_fileName {SecurityAttributes} _.

(** [CreateFile].  The errno of [SyscallN] is assigned to the variable
    [err] of type [error] that the name conversion declared, so that in the
    failure branch [err != nil] holds whatever the errno is, and the call of
    [syscall.GetLastError] behind it is never reached. *)
Definition CreateFile {World SecurityAttributes : Type} (bits : Z)
    (UTF16PtrFromString : string -> option error)
    (CreateFileW : World -> CreateFileArgs SecurityAttributes
                   -> (Z * Z) * World)
    (args : CreateFileArgs SecurityAttributes) (w : World)
    : (HANDLE * option error) * World :=
  match UTF16PtrFromString (cf_fileName args) with
  | Some err => ((INVALID_HANDLE_VALUE bits, Some err), w)
  | None =>
      let '((ret, errno), w') := CreateFileW w args in
      if (ret =? INVALID_HANDLE_VALUE bits) || (ret =? 0)
      then ((INVALID_HANDLE_VALUE bits, Some (Errno errno)), w')
      else ((ret, None), w')
  end.

(** ** NTSTATUS severities *)

Module NTSTATUS.

Definition STATUS_SEVERITY_SUCCESS : Z := 0x0.
Definition STATUS_SEVERITY_INFORMATIONAL : Z := 0x1.
Definition STATUS_SEVERITY_WARNING : Z := 0x2.
Definition STATUS_SEVERITY_ERROR : Z := 0x3.

Definition IsSuccess (status : Z) : bool := status =? 0.

Definition IsError (status : Z) : bool :=
  U32.shr status 30 =? STATUS_SEVERITY_ERROR.

Definition IsWarning (status : Z) : bool :=
  U32.shr status 30 =? STATUS_SEVERITY_WARNING.

Definition IsInformational (status : Z) : bool :=
  U32.shr status 30 =? STATUS_SEVERITY_INFORMATIONAL.

End NTSTATUS.

(** ** [NtQuerySystemInformation] with a growing buffer *)

(** What one call of the system service leaves: its status, the length it
    stores through [ReturnLength] when it stores one, and the bytes it
    writes to the start of the buffer. *)
Record NtAnswer : Type := {
  nt_status : Z;
  nt_returnLength : option Z;
  nt_data : list Z
}.

Definition STATUS_INFO_LENGTH_MISMATCH : Z := 0xC0000004.

Section NtQuery.

Context {KernelState : Type}.
Variable ntQuery : KernelState -> Z -> Z -> NtAnswer * KernelState.

(** The loop [for attempts := 0; attempts < 8; attempts++] with [attempts]
    iterations left.  [sizes] lists the buffer sizes handed to the system
    so far; [&buf[0]] panics on a buffer of size 0. *)
Fixpoint ntQueryLoop (attempts : nat) (class size returnLen : Z)
    (k : KernelState) (sizes : list Z)
    : Outcome (option (list Z) * Z) * KernelState * list Z :=
  match attempts with
  | O => (Returned (None, STATUS_INFO_LENGTH_MISMATCH), k, sizes)
  | S attempts' =>
      if size =? 0 then (Panicked, k, sizes)
      else
        let '(a, k') := ntQuery k class size in
        let sizes' := sizes ++ [size] in
        let buf := bufferAfter size (nt_data a) in
        let returnLen' :=
          match nt_returnLength a with
          | Some n => n
          | None => returnLen
          end in
        let ret := nt_status a in
        if ret =? 0 then
          if (0 <? returnLen') && (returnLen' <=? size)
          then (Returned (Some (take (Z.to_nat returnLen') buf), ret),
                k', sizes')
          else (Returned (Some buf, ret), k', sizes')
        else if ret =? STATUS_INFO_LENGTH_MISMATCH then
          let size' :=
            if 0 <? returnLen' then returnLen' else U32.wrap32 (size * 2) in
          ntQueryLoop attempts' class size' returnLen' k' sizes'
        else (Returned (None, ret), k', sizes')
  end.

(** [NtQuerySystemInformation]; the debug output is not modelled. *)
Definition NtQuerySystemInformation (class initialSize : Z)
    (k : KernelState)
    : Outcome (option (list Z) * Z) * KernelState * list Z :=
  let size := if initialSize =? 0 then 65536 else initialSize in
  ntQueryLoop 8 class size 0 k [].

End NtQuery.

(** ** Sample systems *)

(** A kernel for [DeviceIoControlBytes] that echoes: the call succeeds and
    stores as much of the input as the output buffer holds. *)
Definition echoKernel (k : unit) (hDevice : HANDLE) (ioControlCode : Z)
    (inBuffer : option (list Z)) (inBufferSize outBufferSize : Z)
    : KernelAnswer * unit :=
  let stored := take (Z.to_nat outBufferSize) (default [] inBuffer) in
  ({| k_ret := 1; k_lastError := 0;
      k_bytesReturned := Z.of_nat (length stored);
      k_output := stored |}, k).

(** The code units of an ASCII string. *)
Definition utf16 (s : string) : list Z :=
  map (fun c => Z.of_N (N_of_ascii c)) (list_ascii_of_string s).

(** A name conversion that rejects a name with a NUL in it. *)
Definition sampleUTF16PtrFromString (s : string) : option error :=
  if bool_decide (0 ∈ utf16 s) then Some (Errno 87) else None.

Definition sampleUTF16ToString (units : list Z) : string :=
  string_of_list_ascii (map (fun u => ascii_of_N (Z.to_N u)) units).

Definition sampleToLower (s : string) : string :=
  string_of_list_ascii
    (map (fun c =>
            let n := N_of_ascii c in
            if ((65 <=? n) && (n <=? 90))%N then ascii_of_N (n + 32) else c)
       (list_ascii_of_string s)).

(** A system with three MS-DOS devices, of which one cannot be queried. *)
Definition sampleDosAnswer (name : option string) : Z * Z * list Z :=
  let stored (names : list string) :=
    let written := multiString (map utf16 names) ++ [0] in
    (Z.of_nat (length written), 0, written) in
  match name with
  | None => stored ["C:"; "CLFS"; "NUL"]%string
  | Some device =>
      if String.eqb device "C:" then stored ["\Device\HarddiskVolume1"]%string
      else if String.eqb device "CLFS" then stored ["\Device\clfs"]%string
      else (0, 2, [])
  end.

Definition sampleQueryDosDeviceW (w : unit) (name : option string)
    (size : Z) : (Z * Z * list Z) * unit :=
  (sampleDosAnswer name, w).

(** A system service that needs [needed] bytes and says so. *)
Definition sampleNtQuery (needed : Z) (k : unit) (class size : Z)
    : NtAnswer * unit :=
  if size <? needed
  then ({| nt_status := STATUS_INFO_LENGTH_MISMATCH;
           nt_returnLength := Some needed;
           nt_data := [] |}, k)
  else ({| nt_status := 0;
           nt_returnLength := Some needed;
           nt_data := replicate (Z.to_nat needed) 1 |}, k).

(** A system service that never accepts the buffer and stores no length. *)
Definition stubbornNtQuery (k : unit) (class size : Z) : NtAnswer * unit :=
  ({| nt_status := STATUS_INFO_LENGTH_MISMATCH;
      nt_returnLength := None;
      nt_data := [] |}, k).

(** * Properties *)

(** ** Bit-level facts *)

Section Bits.

Lemma testbit_mask (x k i : Z) :
  0 <= k ->
  Z.testbit (Z.land x (Z.ones k)) i = Z.testbit x i && (i <? k).
Proof.
  intros Hk. destruct (Z.lt_ge_cases i 0) as [Hi | Hi].
  - rewrite !Z.testbit_neg_r by exact Hi. reflexivity.
  - rewrite Z.land_spec, Z.testbit_ones_nonneg by lia. reflexivity.
Qed.

Lemma testbit_shl32 (x n i : Z) :
  0 <= n -> 0 <= i ->
  Z.testbit (U32.shl x n) i = (i <? 32) && (n <=? i) && Z.testbit x (i - n).
Proof.
  intros Hn Hi. unfold U32.shl, U32.wrap32, U32.modulus.
  rewrite Z.testbit_mod_pow2 by lia.
  destruct (Z.ltb_spec i 32); simpl; [|reflexivity].
  destruct (Z.leb_spec n i); simpl.
  - rewrite Z.shiftl_spec by lia. reflexivity.
  - rewrite Z.shiftl_spec_low by lia. reflexivity.
Qed.

Lemma testbit_shr32 (x n i : Z) :
  0 <= i -> Z.testbit (U32.shr x n) i = Z.testbit x (i + n).
Proof. intros Hi. unfold U32.shr. apply Z.shiftr_spec. exact Hi. Qed.

Lemma land_ones_small (x k : Z) :
  0 <= k -> 0 <= x < 2 ^ k -> Z.land x (Z.ones k) = x.
Proof.
  intros Hk Hx. rewrite Z.land_ones by exact Hk. apply Z.mod_small. exact Hx.
Qed.

Lemma land_ones_range (x k : Z) :
  0 <= k -> 0 <= Z.land x (Z.ones k) < 2 ^ k.
Proof.
  intros Hk. rewrite Z.land_ones by exact Hk. apply Z.mod_pos_bound.
  apply Z.pow_pos_nonneg; lia.
Qed.

(** A number whose bits from 32 up are all clear is a [uint32]. *)
Lemma is_u32_of_bits (x : Z) :
  (forall i, 0 <= i -> Z.testbit x i = Z.testbit x i && (i <? 32)) ->
  U32.is_u32 x.
Proof.
  intros Hbits. unfold U32.is_u32, U32.modulus.
  assert (Hx : x = x mod 2 ^ 32).
  { apply Z.bits_inj'. intros i Hi. rewrite Z.testbit_mod_pow2 by lia.
    rewrite (Hbits i Hi). destruct (i <? 32), (Z.testbit x i); reflexivity. }
  rewrite Hx. apply Z.mod_pos_bound. lia.
Qed.

End Bits.

(** ** The codec *)

Section Codec.

(** Turns an equation between codec expressions into an equation between
    the bits at an index [i], written over the bits of the four fields. *)
Ltac codec_unfold :=
  unfold CTL_CODE, ExtractDeviceType, ExtractFunction, ExtractMethod,
    ExtractAccess;
  change 0xFFFF with (Z.ones 16); change 0xFFF with (Z.ones 12);
  change 0x3 with (Z.ones 2).

Ltac codec_rewrite :=
  repeat first
    [ rewrite testbit_mask by lia
    | rewrite testbit_shl32 by lia
    | rewrite testbit_shr32 by lia
    | rewrite Z.lor_spec ].

Ltac codec_bits :=
  codec_unfold; apply Z.bits_inj'; intros i Hi; codec_rewrite.

(** Decides the comparisons on the bit index and closes each case. *)
Ltac codec_cases :=
  repeat match goal with
  | |- context [?a <? ?b] => destruct (Z.ltb_spec a b)
  | |- context [?a <=? ?b] => destruct (Z.leb_spec a b)
  end;
  simpl; rewrite ?andb_false_r, ?andb_true_r, ?orb_false_r; simpl;
  try lia; try reflexivity; try (f_equal; lia).

Lemma ExtractDeviceType_CTL_CODE (dt f m a : Z) :
  ExtractDeviceType (CTL_CODE dt f m a) = Z.land dt 0xFFFF.
Proof. codec_bits. codec_cases. Qed.

Lemma ExtractFunction_CTL_CODE (dt f m a : Z) :
  ExtractFunction (CTL_CODE dt f m a) = Z.land f 0xFFF.
Proof. codec_bits. codec_cases. Qed.

Lemma ExtractMethod_CTL_CODE (dt f m a : Z) :
  ExtractMethod (CTL_CODE dt f m a) = Z.land m 0x3.
Proof. codec_bits. codec_cases. Qed.

Lemma ExtractAccess_CTL_CODE (dt f m a : Z) :
  ExtractAccess (CTL_CODE dt f m a) = Z.land a 0x3.
Proof. codec_bits. codec_cases. Qed.

Lemma CTL_CODE_testbit (dt f m a i : Z) :
  0 <= i ->
  Z.testbit (CTL_CODE dt f m a) i =
    if i <? 2 then Z.testbit m i
    else if i <? 14 then Z.testbit f (i - 2)
    else if i <? 16 then Z.testbit a (i - 14)
    else if i <? 32 then Z.testbit dt (i - 16)
    else false.
Proof. intros Hi. codec_unfold. codec_rewrite. codec_cases. Qed.

Lemma CTL_CODE_is_u32 (dt f m a : Z) : U32.is_u32 (CTL_CODE dt f m a).
Proof.
  apply is_u32_of_bits. intros i Hi. rewrite CTL_CODE_testbit by exact Hi.
  codec_cases.
Qed.

Lemma CTL_CODE_masked (dt f m a : Z) :
  CTL_CODE dt f m a =
  CTL_CODE (Z.land dt 0xFFFF) (Z.land f 0xFFF) (Z.land m 0x3) (Z.land a 0x3).
Proof. codec_bits. codec_cases. Qed.

(** C1. Round-trip law: for a device type in [0,0xFFFF], a function in
    [0,0xFFF], a method in [0,3] and an access in [0,3], the four extraction
    functions applied to [CTL_CODE deviceType function method access] give
    back exactly the device type, the function, the method and the access. *)
Theorem roundtrip_CTL_CODE (deviceType function method access : Z) :
  0 <= deviceType <= 0xFFFF ->
  0 <= function <= 0xFFF ->
  0 <= method <= 3 ->
  0 <= access <= 3 ->
  let code := CTL_CODE deviceType function method access in
  (ExtractDeviceType code, ExtractFunction code,
   ExtractMethod code, ExtractAccess code)
  = (deviceType, function, method, access).
Proof.
  intros Hdt Hf Hm Ha code. subst code.
  rewrite ExtractDeviceType_CTL_CODE, ExtractFunction_CTL_CODE,
    ExtractMethod_CTL_CODE, ExtractAccess_CTL_CODE.
  change 0xFFFF with (Z.ones 16). change 0xFFF with (Z.ones 12).
  change 0x3 with (Z.ones 2).
  rewrite !land_ones_small by lia. reflexivity.
Qed.

Lemma roundtrip_CTL_CODE_witness :
  let code := CTL_CODE 0x8000 0xFFF METHOD_NEITHER 3 in
  (ExtractDeviceType code, ExtractFunction code,
   ExtractMethod code, ExtractAccess code)
  = (0x8000, 0xFFF, METHOD_NEITHER, 3).
Proof.
  apply (roundtrip_CTL_CODE 0x8000 0xFFF METHOD_NEITHER 3);
    unfold METHOD_NEITHER; lia.
Defined.

(** C7. Encode masking: [CTL_CODE] is defined on every quadruple and its
    value is a 32-bit code; a field value wider than its field loses its
    excess bits, so that the code holds bits 0-1 of the method at bits 0-1,
    bits 0-11 of the function at bits 2-13, bits 0-1 of the access at bits
    14-15 and bits 0-15 of the device type at bits 16-31, and nothing else:
    it is the code of the masked quadruple, and each extraction function
    returns the masked field. *)
Theorem CTL_CODE_masks_fields (deviceType function method access : Z) :
  let code := CTL_CODE deviceType function method access in
  U32.is_u32 code
  /\ (forall i, 0 <= i ->
        Z.testbit code i =
          if i <? 2 then Z.testbit method i
          else if i <? 14 then Z.testbit function (i - 2)
          else if i <? 16 then Z.testbit access (i - 14)
          else if i <? 32 then Z.testbit deviceType (i - 16)
          else false)
  /\ code = CTL_CODE (Z.land deviceType 0xFFFF) (Z.land function 0xFFF)
                     (Z.land method 0x3) (Z.land access 0x3)
  /\ ExtractDeviceType code = Z.land deviceType 0xFFFF
  /\ ExtractFunction code = Z.land function 0xFFF
  /\ ExtractMethod code = Z.land method 0x3
  /\ ExtractAccess code = Z.land access 0x3.
Proof.
  intros code. subst code. split; [apply CTL_CODE_is_u32|].
  split; [intros i Hi; apply CTL_CODE_testbit; exact Hi|].
  split; [apply CTL_CODE_masked|].
  split; [apply ExtractDeviceType_CTL_CODE|].
  split; [apply ExtractFunction_CTL_CODE|].
  split; [apply ExtractMethod_CTL_CODE | apply ExtractAccess_CTL_CODE].
Qed.

Lemma CTL_CODE_masks_fields_witness :
  CTL_CODE 0x10007 0x1001 5 7 = CTL_CODE 7 1 1 3
  /\ Z.testbit (CTL_CODE 0x10007 0x1001 5 7) 0 = Z.testbit 5 0.
Proof.
  destruct (CTL_CODE_masks_fields 0x10007 0x1001 5 7)
    as (_ & Hbits & Hmask & _).
  split; [exact Hmask | apply (Hbits 0); lia].
Defined.

End Codec.

(** ** The decoder and the formatters *)

Section Decoder.

Lemma ExtractMethod_range (ioctlCode : Z) : 0 <= ExtractMethod ioctlCode <= 3.
Proof.
  unfold ExtractMethod.
  change (Z.land ioctlCode 0x3) with (Z.land ioctlCode (Z.ones 2)).
  pose proof (land_ones_range ioctlCode 2 ltac:(lia)) as H.
  change (2 ^ 2) with 4 in H. lia.
Qed.

Lemma ExtractDeviceType_range (ioctlCode : Z) :
  0 <= ExtractDeviceType ioctlCode <= 0xFFFF.
Proof.
  unfold ExtractDeviceType.
  change (Z.land ?x 0xFFFF) with (Z.land x (Z.ones 16)).
  pose proof (land_ones_range (U32.shr ioctlCode 16) 16 ltac:(lia)) as H.
  change (2 ^ 16) with 0x10000 in H. lia.
Qed.

Lemma GetMethodName_defined (method : Z) :
  0 <= method <= 3 ->
  GetMethodName method ∈
    ["BUFFERED"; "IN_DIRECT"; "OUT_DIRECT"; "NEITHER"]%string.
Proof.
  intros Hm.
  assert (Hcases : method = 0 \/ method = 1 \/ method = 2 \/ method = 3)
    by lia.
  rewrite !elem_of_cons.
  destruct Hcases as [-> | [-> | [-> | ->]]]; vm_compute GetMethodName; tauto.
Qed.

(** C6. [DecodeIOCTL] is defined on every code, [0x00000000] and
    [0xFFFFFFFF] included, and in the components it produces: the device
    type is the extracted 16-bit field; its name is the name the table gives
    when the device type is in the table, "CUSTOM" when it is not and is at
    least [0x8000], "UNKNOWN" when it is not and is below [0x8000]; and the
    method name is one of the four defined names, never "INVALID". *)
Theorem DecodeIOCTL_names (ioctlCode : Z) :
  let components := DecodeIOCTL ioctlCode in
  IOCTLCode components = ioctlCode
  /\ DeviceType components = ExtractDeviceType ioctlCode
  /\ (forall name,
        deviceTypeNames !! DeviceType components = Some name ->
        DeviceTypeName components = name)
  /\ (deviceTypeNames !! DeviceType components = None ->
        0x8000 <= DeviceType components ->
        DeviceTypeName components = "CUSTOM"%string)
  /\ (deviceTypeNames !! DeviceType components = None ->
        DeviceType components < 0x8000 ->
        DeviceTypeName components = "UNKNOWN"%string)
  /\ MethodName components ∈
       ["BUFFERED"; "IN_DIRECT"; "OUT_DIRECT"; "NEITHER"]%string
  /\ MethodName components <> "INVALID"%string.
Proof.
  intros components. subst components. cbn [DecodeIOCTL IOCTLCode DeviceType
    DeviceTypeName MethodName]. unfold GetDeviceTypeName.
  split; [reflexivity|]. split; [reflexivity|].
  split; [intros name ->; reflexivity|].
  split.
  { intros -> Hge. apply Z.leb_le in Hge. rewrite Hge. reflexivity. }
  split.
  { intros -> Hlt. apply Z.leb_gt in Hlt. rewrite Hlt. reflexivity. }
  pose proof (GetMethodName_defined _ (ExtractMethod_range ioctlCode)) as Hin.
  split; [exact Hin|].
  intros Heq. rewrite Heq, !elem_of_cons, elem_of_nil in Hin.
  intuition discriminate.
Qed.

Lemma DecodeIOCTL_names_witness :
  DeviceTypeName (DecodeIOCTL 0x00070000) = "DISK"%string
  /\ DeviceTypeName (DecodeIOCTL 0xFFFFFFFF) = "CUSTOM"%string
  /\ DeviceTypeName (DecodeIOCTL 0x00000000) = "UNKNOWN"%string.
Proof.
  split; [|split].
  - destruct (DecodeIOCTL_names 0x00070000) as (_ & _ & Hknown & _).
    apply Hknown. reflexivity.
  - destruct (DecodeIOCTL_names 0xFFFFFFFF) as (_ & _ & _ & Hcustom & _).
    apply Hcustom; [reflexivity | vm_compute; discriminate].
  - destruct (DecodeIOCTL_names 0x00000000) as (_ & _ & _ & _ & Hunknown & _).
    apply Hunknown; [reflexivity | vm_compute; reflexivity].
Defined.

(** C8. The code [CTL_CODE 7 0 0 0] is [0x00070000]; it decodes with the
    device-type name "DISK", the method name "BUFFERED", the access name
    "ANY" and a known name that is not empty; [FormatIOCTLHex] renders it as
    "0x00070000 [Device:0x0007 Access:0x0 Func:0x000 Method:0x0]" and the
    text [FormatIOCTL] gives for it contains
    "DISK(function:0x0, method:BUFFERED, access:ANY)". *)
Theorem known_code_fixtures :
  let code := CTL_CODE 7 0 0 0 in
  code = 0x00070000
  /\ DeviceTypeName (DecodeIOCTL code) = "DISK"%string
  /\ MethodName (DecodeIOCTL code) = "BUFFERED"%string
  /\ AccessName (DecodeIOCTL code) = "ANY"%string
  /\ KnownName (DecodeIOCTL code) = "IOCTL_DISK_GET_DRIVE_GEOMETRY"%string
  /\ negb (String.eqb (KnownName (DecodeIOCTL code)) EmptyString) = true
  /\ FormatIOCTLHex code =
       "0x00070000 [Device:0x0007 Access:0x0 Func:0x000 Method:0x0]"%string
  /\ FormatIOCTL code =
       ("IOCTL_DISK_GET_DRIVE_GEOMETRY: "
        +:+ "DISK(function:0x0, method:BUFFERED, access:ANY)")%string
  /\ Contains (FormatIOCTL code)
       "DISK(function:0x0, method:BUFFERED, access:ANY)" = true.
Proof.
  cbv zeta. repeat split; vm_compute; reflexivity.
Qed.

End Decoder.

(** ** The expectations of the package's tests *)

Section PackageTests.

(** TestCTL_CODE. *)
Example test_CTL_CODE_disk :
  CTL_CODE FILE_DEVICE_DISK 0 METHOD_BUFFERED FILE_ANY_ACCESS
  = IOCTL_DISK_GET_DRIVE_GEOMETRY.
Proof. reflexivity. Qed.

Example test_CTL_CODE_custom :
  CTL_CODE 0x8000 0x800 METHOD_BUFFERED FILE_ANY_ACCESS
  = Z.lor (Z.lor (Z.shiftl 0x8000 16) (Z.shiftl 0 14)) (Z.shiftl 0x800 2).
Proof. reflexivity. Qed.

(** TestExtractDeviceType, TestExtractFunction, TestExtractAccess. *)
Example test_Extract :
  ExtractDeviceType IOCTL_STORAGE_GET_DEVICE_NUMBER = FILE_DEVICE_MASS_STORAGE
  /\ ExtractDeviceType 0x80000000 = 0x8000
  /\ ExtractFunction IOCTL_DISK_GET_DRIVE_LAYOUT = 3
  /\ ExtractFunction IOCTL_STORAGE_QUERY_PROPERTY = 0x500
  /\ ExtractAccess IOCTL_DISK_GET_PARTITION_INFO = FILE_READ_ACCESS.
Proof. repeat split; reflexivity. Qed.

(** TestGetDeviceTypeName, TestGetMethodName, TestGetAccessName,
    TestLookupKnownIOCTL. *)
Example test_names :
  GetDeviceTypeName FILE_DEVICE_KEYBOARD = "KEYBOARD"%string
  /\ GetDeviceTypeName 0x8000 = "CUSTOM"%string
  /\ GetDeviceTypeName 0x003C = "UNKNOWN"%string
  /\ GetMethodName 99 = "INVALID"%string
  /\ GetAccessName 3 = "READ_WRITE"%string
  /\ GetAccessName 99 = "INVALID"%string
  /\ LookupKnownIOCTL 0x12345678 = None.
Proof. repeat split; vm_compute; reflexivity. Qed.

(** TestFormatIOCTL. *)
Example test_FormatIOCTL :
  FormatIOCTL IOCTL_DISK_GET_PARTITION_INFO
  = ("IOCTL_DISK_GET_PARTITION_INFO: "
     +:+ "DISK(function:0x1, method:BUFFERED, access:READ)")%string
  /\ FormatIOCTL
       (CTL_CODE FILE_DEVICE_NETWORK 0x123 METHOD_IN_DIRECT FILE_WRITE_ACCESS)
     = "NETWORK(function:0x123, method:IN_DIRECT, access:WRITE)"%string
  /\ FormatIOCTL (CTL_CODE 0x8000 0xABC METHOD_NEITHER FILE_READ_ACCESS)
     = "CUSTOM(function:0xABC, method:NEITHER, access:READ)"%string.
Proof. repeat split; vm_compute; reflexivity. Qed.

(** TestFormatIOCTLHex. *)
Example test_FormatIOCTLHex :
  FormatIOCTLHex IOCTL_DISK_GET_PARTITION_INFO
  = "0x00074004 [Device:0x0007 Access:0x1 Func:0x001 Method:0x0]"%string
  /\ FormatIOCTLHex
       (CTL_CODE FILE_DEVICE_NETWORK 0x123 METHOD_IN_DIRECT FILE_WRITE_ACCESS)
     = "0x0012848D [Device:0x0012 Access:0x2 Func:0x123 Method:0x1]"%string
  /\ FormatIOCTLHex (CTL_CODE 0x8000 0xFFF METHOD_NEITHER 3)
     = "0x8000FFFF [Device:0x8000 Access:0x3 Func:0xFFF Method:0x3]"%string.
Proof. repeat split; vm_compute; reflexivity. Qed.

End PackageTests.

(** ** The probe and its classifier *)

Section Probe.

Context {DriverState : Type}.
Variable driver :
  DriverState -> HANDLE -> Z -> Z -> Z -> IoControlResult * DriverState.

(** One probe is one call of [DeviceIoControl]: it always returns, its
    result is read off the logged call, and the log grows by that call. *)
Lemma ProbeIOCTL_run (hDevice : HANDLE) (code : Z) (s : System DriverState) :
  exists c s',
    ProbeIOCTL driver hDevice code s = Some (resultOf c, s')
    /\ call_code c = code
    /\ probeOn hDevice c
    /\ madeCalls driver s [c] s'.
Proof.
  exists {| call_handle := hDevice;
            call_code := code;
            call_inBufferSize := 16;
            call_outBufferSize := 256;
            call_result := fst (driver (sys_driver s) hDevice code 16 256) |}.
  unfold ProbeIOCTL, DeviceIoControl, mbind, M_bind, mret, M_ret.
  destruct (driver (sys_driver s) hDevice code 16 256) as [r d] eqn:Hdrv.
  eexists. split; [reflexivity|].
  unfold madeCalls, probeOn. cbn. rewrite Hdrv. cbn. tauto.
Qed.

Lemma errnoSwitch_recognized (errno : Z) :
  errno ∈ [ERROR_INSUFFICIENT_BUFFER; ERROR_MORE_DATA;
            ERROR_INVALID_PARAMETER; ERROR_BAD_LENGTH;
            ERROR_INVALID_USER_BUFFER; ERROR_ACCESS_DENIED] ->
  errnoSwitch errno = true.
Proof.
  rewrite !elem_of_cons, elem_of_nil.
  intros [-> | [-> | [-> | [-> | [-> | [-> | []]]]]]]; reflexivity.
Qed.

Lemma errnoSwitch_unrecognized (errno : Z) :
  errno ∈ [ERROR_INVALID_FUNCTION; ERROR_NOT_SUPPORTED;
            ERROR_CALL_NOT_IMPLEMENTED] ->
  errnoSwitch errno = false.
Proof.
  rewrite !elem_of_cons, elem_of_nil.
  intros [-> | [-> | [-> | []]]]; reflexivity.
Qed.

Lemma errnoSwitch_default (errno : Z) :
  errno ∉ [ERROR_INVALID_FUNCTION; ERROR_NOT_SUPPORTED;
            ERROR_CALL_NOT_IMPLEMENTED] ->
  errnoSwitch errno = true.
Proof.
  rewrite !elem_of_cons, elem_of_nil. intros Hnot. unfold errnoSwitch.
  match goal with
  | |- (if ?b then _ else _) = _ => destruct b; [reflexivity|]
  end.
  match goal with
  | |- (if ?b then _ else _) = _ => destruct b eqn:Hsecond; [|reflexivity]
  end.
  exfalso. apply Hnot.
  rewrite !orb_true_iff, !Z.eqb_eq in Hsecond. tauto.
Qed.

(** C2. Classifier policy.  A probe always returns a result for the probed
    code that carries the error of the device-control call, and its [Valid]
    is: true when the call returned no error (it succeeded); true when the
    error is one of the errnos insufficient buffer, more data, invalid
    parameter, bad length, invalid user buffer, access denied; false when it
    is one of the errnos invalid function, not supported, call not
    implemented; true for every other errno. *)
Theorem ProbeIOCTL_classifier (hDevice : HANDLE) (ioctlCode : Z)
    (s : System DriverState) :
  exists result s',
    ProbeIOCTL driver hDevice ioctlCode s = Some (result, s')
    /\ Code result = ioctlCode
    /\ ErrorCode result =
         io_err (fst (driver (sys_driver s) hDevice ioctlCode 16 256))
    /\ (ErrorCode result = None -> Valid result = true)
    /\ (forall errno,
          ErrorCode result = Some (Errno errno) ->
          errno ∈ [ERROR_INSUFFICIENT_BUFFER; ERROR_MORE_DATA;
                    ERROR_INVALID_PARAMETER; ERROR_BAD_LENGTH;
                    ERROR_INVALID_USER_BUFFER; ERROR_ACCESS_DENIED] ->
          Valid result = true)
    /\ (forall errno,
          ErrorCode result = Some (Errno errno) ->
          errno ∈ [ERROR_INVALID_FUNCTION; ERROR_NOT_SUPPORTED;
                    ERROR_CALL_NOT_IMPLEMENTED] ->
          Valid result = false)
    /\ (forall errno,
          ErrorCode result = Some (Errno errno) ->
          errno ∉ [ERROR_INSUFFICIENT_BUFFER; ERROR_MORE_DATA;
                    ERROR_INVALID_PARAMETER; ERROR_BAD_LENGTH;
                    ERROR_INVALID_USER_BUFFER; ERROR_ACCESS_DENIED;
                    ERROR_INVALID_FUNCTION; ERROR_NOT_SUPPORTED;
                    ERROR_CALL_NOT_IMPLEMENTED] ->
          Valid result = true).
Proof.
  destruct (ProbeIOCTL_run hDevice ioctlCode s)
    as (c & s' & Hrun & Hcode & Hprobe & Hcalls).
  exists (resultOf c), s'. split; [exact Hrun|].
  split; [exact Hcode|].
  destruct Hcalls as [_ [Hres _]].
  destruct Hprobe as (Hh & Hin & Hout).
  rewrite Hh, Hcode, Hin, Hout in Hres.
  split; [cbn; rewrite Hres; reflexivity|].
  unfold resultOf; cbn [ErrorCode Valid].
  destruct (io_err (call_result c)) as [e|]; cbn [validFor].
  2:{ split; [reflexivity|]. repeat split; intros; discriminate. }
  split; [discriminate|].
  split; [intros errno [= ->] Hmem; apply errnoSwitch_recognized, Hmem|].
  split; [intros errno [= ->] Hmem; apply errnoSwitch_unrecognized, Hmem|].
  intros errno [= ->] Hnot. apply errnoSwitch_default.
  rewrite !elem_of_cons, elem_of_nil in *. tauto.
Qed.

(** C9. When the device-control call returns an error that is not a
    [syscall.Errno], the probe leaves [Valid] at [false]: the outcome counts
    as not recognized, and the default that treats unnamed errors as
    recognized is not reached. *)
Theorem ProbeIOCTL_non_errno (hDevice : HANDLE) (ioctlCode : Z)
    (s : System DriverState) (description : string) :
  io_err (fst (driver (sys_driver s) hDevice ioctlCode 16 256))
    = Some (OtherError description) ->
  exists result s',
    ProbeIOCTL driver hDevice ioctlCode s = Some (result, s')
    /\ ErrorCode result = Some (OtherError description)
    /\ Valid result = false.
Proof.
  intros Herr.
  destruct (ProbeIOCTL_run hDevice ioctlCode s)
    as (c & s' & Hrun & Hcode & (Hh & Hin & Hout) & _ & Hres & _).
  rewrite Hh, Hcode, Hin, Hout in Hres. rewrite <- Hres in Herr.
  exists (resultOf c), s'. split; [exact Hrun|].
  unfold resultOf; cbn [ErrorCode Valid]. rewrite Herr. split; reflexivity.
Qed.

End Probe.

Lemma ProbeIOCTL_classifier_witness :
  (exists result s',
     ProbeIOCTL sampleDriver 1 0x00070000 freshSystem = Some (result, s')
     /\ Valid result = true)
  /\ (exists result s',
        ProbeIOCTL sampleDriver 1 0x00070004 freshSystem = Some (result, s')
        /\ Valid result = true)
  /\ (exists result s',
        ProbeIOCTL sampleDriver 1 0x00070008 freshSystem = Some (result, s')
        /\ Valid result = false)
  /\ (exists result s',
        ProbeIOCTL sampleDriver 1 0x0007000C freshSystem = Some (result, s')
        /\ Valid result = true).
Proof.
  split; [|split; [|split]].
  - destruct (ProbeIOCTL_classifier sampleDriver 1 0x00070000 freshSystem)
      as (result & s' & Hrun & _ & Herr & Hok & _).
    exists result, s'. split; [exact Hrun|]. apply Hok. rewrite Herr.
    reflexivity.
  - destruct (ProbeIOCTL_classifier sampleDriver 1 0x00070004 freshSystem)
      as (result & s' & Hrun & _ & Herr & _ & Hrec & _).
    exists result, s'. split; [exact Hrun|].
    apply (Hrec ERROR_INSUFFICIENT_BUFFER).
    + rewrite Herr. reflexivity.
    + apply list_elem_of_here.
  - destruct (ProbeIOCTL_classifier sampleDriver 1 0x00070008 freshSystem)
      as (result & s' & Hrun & _ & Herr & _ & _ & Hunrec & _).
    exists result, s'. split; [exact Hrun|].
    apply (Hunrec ERROR_INVALID_FUNCTION).
    + rewrite Herr. reflexivity.
    + apply list_elem_of_here.
  - destruct (ProbeIOCTL_classifier sampleDriver 1 0x0007000C freshSystem)
      as (result & s' & Hrun & _ & Herr & _ & _ & _ & Hother).
    exists result, s'. split; [exact Hrun|].
    apply (Hother 31).
    + rewrite Herr. reflexivity.
    + rewrite !elem_of_cons, elem_of_nil. vm_compute.
      intuition discriminate.
Defined.

Lemma ProbeIOCTL_non_errno_witness :
  exists result s',
    ProbeIOCTL sampleDriver 1 0x00070010 freshSystem = Some (result, s')
    /\ ErrorCode result = Some (OtherError "not an errno")
    /\ Valid result = false.
Proof.
  apply (ProbeIOCTL_non_errno sampleDriver 1 0x00070010 freshSystem
           "not an errno").
  reflexivity.
Defined.

(** ** Counting loops over [uint32] *)

Section Loops.

Context {DriverState : Type}.
Variable driver :
  DriverState -> HANDLE -> Z -> Z -> Z -> IoControlResult * DriverState.

Lemma answered_app (d d' d'' : DriverState) (calls calls' : list IoControlCall) :
  answered driver d calls d' ->
  answered driver d' calls' d'' ->
  answered driver d (calls ++ calls') d''.
Proof.
  revert d. induction calls as [|c calls IH]; intros d; cbn.
  - intros ->. trivial.
  - intros [Hres Hrest] Hnext. split; [exact Hres|]. apply IH; assumption.
Qed.

Lemma madeCalls_nil (s : System DriverState) : madeCalls driver s [] s.
Proof. split; [symmetry; apply app_nil_r | reflexivity]. Qed.

Lemma madeCalls_app (s s' s'' : System DriverState)
    (calls calls' : list IoControlCall) :
  madeCalls driver s calls s' ->
  madeCalls driver s' calls' s'' ->
  madeCalls driver s (calls ++ calls') s''.
Proof.
  intros [Hlog Hans] [Hlog' Hans']. split.
  - rewrite Hlog', Hlog, app_assoc. reflexivity.
  - eapply answered_app; eassumption.
Qed.

Lemma closedRange_nil (first last : Z) :
  last < first -> closedRange first last = [].
Proof. intros Hlt. apply seqZ_nil. lia. Qed.

Lemma closedRange_cons (first last : Z) :
  first <= last ->
  closedRange first last = first :: closedRange (first + 1) last.
Proof.
  intros Hle. unfold closedRange. rewrite seqZ_cons by lia.
  f_equal. f_equal; lia.
Qed.

Lemma elem_of_closedRange (first last x : Z) :
  x ∈ closedRange first last <-> first <= x <= last.
Proof. unfold closedRange. rewrite elem_of_seqZ. lia. Qed.

Lemma length_closedRange (first last : Z) :
  length (closedRange first last) = Z.to_nat (last - first + 1).
Proof. apply length_seqZ. Qed.

Lemma incr_below_max (i : Z) : 0 <= i < U32.max -> U32.incr i = i + 1.
Proof.
  intros Hi. unfold U32.incr, U32.wrap32, U32.modulus, U32.max in *.
  apply Z.mod_small. lia.
Qed.

Lemma incr_is_u32 (i : Z) : 0 <= U32.incr i <= U32.max.
Proof.
  unfold U32.incr, U32.wrap32, U32.modulus, U32.max.
  pose proof (Z.mod_pos_bound (i + 1) (2 ^ 32)). lia.
Qed.

(** With a bound below the largest [uint32] and fuel for every index, the
    counting loop runs its body once for each index of the closed range. *)
Lemma forUint32_forEach {A : Type} (body : Z -> A -> M DriverState A)
    (last : Z) (fuel : nat) (first : Z) (acc : A) (s : System DriverState) :
  0 <= first ->
  last < U32.max ->
  (Z.to_nat (last - first + 1) <= fuel)%nat ->
  forUint32 fuel first last body acc s
  = forEach (closedRange first last) body acc s.
Proof.
  revert first acc s. induction fuel as [|fuel IH]; intros first acc s H0 Hmax Hfuel.
  - cbn. destruct (Z.leb_spec first last) as [Hle|Hgt]; [lia|].
    rewrite closedRange_nil by lia. reflexivity.
  - cbn. destruct (Z.leb_spec first last) as [Hle|Hgt].
    + rewrite closedRange_cons by lia. cbn.
      unfold mbind, M_bind.
      destruct (body first acc s) as [[acc' s']|]; [|reflexivity].
      rewrite incr_below_max by lia. apply IH; lia.
    + rewrite closedRange_nil by lia. reflexivity.
Qed.

(** With the bound at the largest [uint32] the condition [i <= last] holds
    for every counter value, so no amount of fuel lets the loop finish. *)
Lemma forUint32_max_never_returns {A : Type}
    (body : Z -> A -> M DriverState A)
    (fuel : nat) (first : Z) (acc : A) (s : System DriverState) :
  0 <= first <= U32.max ->
  forUint32 fuel first U32.max body acc s = None.
Proof.
  revert first acc s. induction fuel as [|fuel IH]; intros first acc s Hfirst.
  - cbn. destruct (Z.leb_spec first U32.max); [reflexivity | lia].
  - cbn. destruct (Z.leb_spec first U32.max); [|lia].
    unfold mbind, M_bind.
    destruct (body first acc s) as [[acc' s']|]; [|reflexivity].
    apply IH. apply incr_is_u32.
Qed.

(** With less fuel than indices the loop does not finish either. *)
Lemma forUint32_short_of_fuel {A : Type} (body : Z -> A -> M DriverState A)
    (last : Z) (fuel : nat) (first : Z) (acc : A) (s : System DriverState) :
  0 <= first ->
  last < U32.max ->
  (fuel < Z.to_nat (last - first + 1))%nat ->
  forUint32 fuel first last body acc s = None.
Proof.
  revert first acc s. induction fuel as [|fuel IH]; intros first acc s H0 Hmax Hfuel.
  - cbn. destruct (Z.leb_spec first last); [reflexivity | lia].
  - cbn. destruct (Z.leb_spec first last); [|lia].
    unfold mbind, M_bind.
    destruct (body first acc s) as [[acc' s']|]; [|reflexivity].
    rewrite incr_below_max by lia. apply IH; lia.
Qed.

Lemma forEach_app {A : Type} (body : Z -> A -> M DriverState A)
    (indices indices' : list Z) (acc : A) (s : System DriverState) :
  forEach (indices ++ indices') body acc s =
    match forEach indices body acc s with
    | Some (acc', s') => forEach indices' body acc' s'
    | None => None
    end.
Proof.
  revert acc s. induction indices as [|i indices IH]; intros acc s; cbn.
  - reflexivity.
  - destruct (body i acc s) as [[acc' s']|]; [apply IH | reflexivity].
Qed.

End Loops.

(** ** The exhaustive range scan *)

Section Scan.

Context {DriverState : Type}.
Variable driver :
  DriverState -> HANDLE -> Z -> Z -> Z -> IoControlResult * DriverState.

(** Probing a list of codes one after the other makes one call per code, in
    the order of the list, and appends the results of the recognized ones. *)
Lemma scan_forEach (hDevice : HANDLE) (codes : list Z)
    (acc : list IOCTLProbeResult) (s : System DriverState) :
  exists calls s',
    forEach codes
      (fun code results =>
         result ← ProbeIOCTL driver hDevice code;
         mret (if Valid result then results ++ [result] else results))
      acc s
    = Some (acc ++ map resultOf (filter recognized calls), s')
    /\ madeCalls driver s calls s'
    /\ map call_code calls = codes
    /\ Forall (probeOn hDevice) calls.
Proof.
  set (body := fun (code : Z) (results : list IOCTLProbeResult) => _).
  revert acc s. induction codes as [|code codes IH]; intros acc s.
  - exists [], s. cbn. rewrite app_nil_r.
    split; [reflexivity|]. split; [apply madeCalls_nil|].
    split; [reflexivity | constructor].
  - destruct (ProbeIOCTL_run driver hDevice code s)
      as (c & s1 & Hrun & Hcode & Hprobe & Hcall).
    assert (Hstep : body code acc s
       = Some (if Valid (resultOf c) then acc ++ [resultOf c] else acc, s1)).
    { unfold body, mbind, M_bind. rewrite Hrun. reflexivity. }
    cbn [forEach]. rewrite Hstep.
    destruct (IH (if Valid (resultOf c) then acc ++ [resultOf c] else acc) s1)
      as (calls & s' & Hloop & Hcalls & Hcodes & Hall).
    exists (c :: calls), s'. split.
    { rewrite Hloop. f_equal. f_equal. unfold resultOf at 1. cbn [Valid].
      destruct (decide (recognized c)) as [Hrec|Hrec].
      - rewrite filter_cons_True by exact Hrec. cbn [map].
        unfold recognized in Hrec. rewrite Hrec, <- app_assoc. reflexivity.
      - rewrite filter_cons_False by exact Hrec.
        unfold recognized in Hrec. apply not_true_is_false in Hrec.
        rewrite Hrec. reflexivity. }
    split; [apply (madeCalls_app driver s s1 s' [c] calls); assumption|].
    split; [cbn; rewrite Hcode, Hcodes; reflexivity|].
    constructor; assumption.
Qed.

(** For a range that ends below the largest [uint32] and with fuel for every
    code of it, the scan returns: it has probed exactly the codes of
    [startCode, endCode], each once and in ascending order, and its result
    is the list of the recognized probes, in that order. *)
Lemma ScanIOCTLRange_below_max (fuel : nat) (hDevice : HANDLE)
    (startCode endCode : Z) (s : System DriverState) :
  0 <= startCode ->
  endCode < U32.max ->
  (Z.to_nat (endCode - startCode + 1) <= fuel)%nat ->
  exists calls s',
    ScanIOCTLRange driver fuel hDevice startCode endCode s
    = Some (map resultOf (filter recognized calls), s')
    /\ madeCalls driver s calls s'
    /\ map call_code calls = closedRange startCode endCode
    /\ Forall (probeOn hDevice) calls.
Proof.
  intros Hstart Hend Hfuel. unfold ScanIOCTLRange.
  rewrite forUint32_forEach by assumption.
  apply (scan_forEach hDevice (closedRange startCode endCode) [] s).
Qed.

(** C5 at the range that ends with the largest code.  The scan of the one
    code [0xFFFFFFFF] does not return: after the probe the counter wraps to
    [0], which is again [<= endCode], so for every amount of fuel the result
    is that of a loop still running. *)
Theorem ScanIOCTLRange_last_code_never_returns (fuel : nat) :
  ScanIOCTLRange sampleDriver fuel 1 0xFFFFFFFF 0xFFFFFFFF freshSystem = None.
Proof.
  unfold ScanIOCTLRange.
  apply (forUint32_max_never_returns _ fuel 0xFFFFFFFF).
  unfold U32.max. lia.
Qed.

(** C10. For [startCode <= endCode < 0xFFFFFFFF] the scan returns after
    exactly [endCode - startCode + 1] calls of the device-control primitive:
    that much fuel is enough and the log grows by that many calls, and less
    fuel is not enough.  For [endCode = 0xFFFFFFFF] the counter, which wraps
    from [0xFFFFFFFF] to [0], can never exceed [endCode], and the scan does
    not return whatever the fuel. *)
Theorem ScanIOCTLRange_termination (hDevice : HANDLE) (startCode : Z)
    (s : System DriverState) :
  0 <= startCode ->
  (forall endCode fuel,
     startCode <= endCode < U32.max ->
     (Z.to_nat (endCode - startCode + 1) <= fuel)%nat ->
     exists results calls s',
       ScanIOCTLRange driver fuel hDevice startCode endCode s
       = Some (results, s')
       /\ sys_calls s' = sys_calls s ++ calls
       /\ Z.of_nat (length calls) = endCode - startCode + 1)
  /\ (forall endCode fuel,
        startCode <= endCode < U32.max ->
        (fuel < Z.to_nat (endCode - startCode + 1))%nat ->
        ScanIOCTLRange driver fuel hDevice startCode endCode s = None)
  /\ U32.incr U32.max = 0
  /\ (forall fuel,
        startCode <= U32.max ->
        ScanIOCTLRange driver fuel hDevice startCode U32.max s = None).
Proof.
  intros Hstart. split; [|split; [|split; [reflexivity|]]].
  - intros endCode fuel Hend Hfuel.
    destruct (ScanIOCTLRange_below_max fuel hDevice startCode endCode s)
      as (calls & s' & Hrun & [Hlog _] & Hcodes & _); [lia..|].
    eexists _, calls, s'. split; [exact Hrun|]. split; [exact Hlog|].
    rewrite <- (length_map call_code), Hcodes, length_closedRange. lia.
  - intros endCode fuel Hend Hfuel. unfold ScanIOCTLRange.
    apply forUint32_short_of_fuel; lia.
  - intros fuel Hle. unfold ScanIOCTLRange.
    apply forUint32_max_never_returns. lia.
Qed.

End Scan.

Lemma ScanIOCTLRange_termination_witness :
  (exists results calls s',
     ScanIOCTLRange sampleDriver 16 1 0x00070000 0x0007000F freshSystem
     = Some (results, s')
     /\ sys_calls s' = sys_calls freshSystem ++ calls
     /\ Z.of_nat (length calls) = 0x0007000F - 0x00070000 + 1)
  /\ ScanIOCTLRange sampleDriver 15 1 0x00070000 0x0007000F freshSystem = None
  /\ ScanIOCTLRange sampleDriver 16 1 0x00070000 U32.max freshSystem = None.
Proof.
  destruct (ScanIOCTLRange_termination sampleDriver 1 0x00070000 freshSystem)
    as (Hreturns & Hshort & _ & Hmax); [lia|].
  split; [|split].
  - apply Hreturns; [unfold U32.max; lia | vm_compute; lia].
  - apply Hshort; [unfold U32.max; lia | vm_compute; lia].
  - apply Hmax. unfold U32.max. lia.
Defined.

(** ** The early-exit rule on one function value *)

Section EarlyExit.

Lemma filter_recognized_nil (calls : list IoControlCall) :
  filter recognized calls = [] -> Forall (fun c => ~ recognized c) calls.
Proof.
  induction calls as [|c calls IH]; [constructor|].
  rewrite filter_cons. destruct (decide (recognized c)); [discriminate|].
  intros Hnil. constructor; [assumption | apply IH, Hnil].
Qed.

(** A cut that holds a recognized call stays the cut when candidates are
    added behind. *)
Lemma cut_app_hit (codes codes' : list Z) (calls : list IoControlCall) :
  cutAtFirstHit codes calls ->
  filter recognized calls <> [] ->
  cutAtFirstHit (codes ++ codes') calls.
Proof.
  induction 1 as [|code codes c Hcode Hrec|code codes c calls Hcode Hrec Hcut IH];
    intros Hhit.
  - contradiction.
  - apply cut_hit; assumption.
  - rewrite filter_cons_False in Hhit by exact Hrec.
    apply cut_miss; auto.
Qed.

(** A cut without a recognized call is continued by the cut of the
    candidates behind. *)
Lemma cut_app_miss (codes codes' : list Z) (calls calls' : list IoControlCall) :
  cutAtFirstHit codes calls ->
  filter recognized calls = [] ->
  cutAtFirstHit codes' calls' ->
  cutAtFirstHit (codes ++ codes') (calls ++ calls').
Proof.
  induction 1 as [|code codes c Hcode Hrec|code codes c calls Hcode Hrec Hcut IH];
    intros Hmiss Hnext.
  - exact Hnext.
  - rewrite filter_cons_True in Hmiss by exact Hrec. discriminate.
  - rewrite filter_cons_False in Hmiss by exact Hrec.
    cbn. apply cut_miss; auto.
Qed.

Lemma cut_codes (codes : list Z) (calls : list IoControlCall) (c : IoControlCall) :
  cutAtFirstHit codes calls -> c ∈ calls -> call_code c ∈ codes.
Proof.
  induction 1 as [|code codes c0 Hcode Hrec|code codes c0 calls Hcode Hrec Hcut IH];
    rewrite ?elem_of_cons, ?elem_of_nil.
  - tauto.
  - intros [-> | []]. left. exact Hcode.
  - intros [-> | Hin]; [left; exact Hcode | right; apply IH, Hin].
Qed.

(** In a cut nothing follows a recognized call. *)
Lemma cut_recognized_last (codes : list Z)
    (calls before after : list IoControlCall) (c : IoControlCall) :
  cutAtFirstHit codes calls ->
  calls = before ++ c :: after ->
  recognized c ->
  after = [].
Proof.
  intros Hcut. revert before.
  induction Hcut as [|code codes c0 Hcode Hrec|code codes c0 calls Hcode Hrec Hcut IH];
    intros before Heq Hc.
  - destruct before; discriminate.
  - destruct before as [|b before]; [injection Heq; auto|].
    destruct before; discriminate.
  - destruct before as [|b before].
    + injection Heq as -> _. contradiction.
    + injection Heq as _ Heq. eapply IH; eassumption.
Qed.

(** The calls of a cut are a prefix of the candidates. *)
Lemma cut_prefix (codes : list Z) (calls : list IoControlCall) :
  cutAtFirstHit codes calls -> map call_code calls `prefix_of` codes.
Proof.
  induction 1 as [|code codes c Hcode Hrec|code codes c calls Hcode Hrec Hcut IH];
    cbn.
  - reflexivity.
  - rewrite Hcode. apply prefix_cons, prefix_nil.
  - rewrite Hcode. apply prefix_cons, IH.
Qed.

(** A cut is short of the candidates only when it ends with a hit. *)
Lemma cut_complete (codes : list Z) (calls : list IoControlCall) :
  cutAtFirstHit codes calls ->
  filter recognized calls = [] ->
  map call_code calls = codes.
Proof.
  induction 1 as [|code codes c Hcode Hrec|code codes c calls Hcode Hrec Hcut IH];
    intros Hmiss.
  - reflexivity.
  - rewrite filter_cons_True in Hmiss by exact Hrec. discriminate.
  - rewrite filter_cons_False in Hmiss by exact Hrec.
    cbn. rewrite Hcode, IH by exact Hmiss. reflexivity.
Qed.

End EarlyExit.

(** ** The targeted scan *)

Section Discover.

Context {DriverState : Type}.
Variable driver :
  DriverState -> HANDLE -> Z -> Z -> Z -> IoControlResult * DriverState.

(** The loop over the access levels of one method always returns; its calls
    are the cut of the method's candidates at the first hit, and the result
    it hands to the jump is that hit. *)
Lemma accessLoop_run (hDevice : HANDLE) (deviceType function method : Z)
    (levels : list Z) (s : System DriverState) :
  exists hit calls s',
    accessLoop driver hDevice deviceType function method levels s
    = Some (hit, s')
    /\ madeCalls driver s calls s'
    /\ cutAtFirstHit (methodCandidates deviceType function method levels) calls
    /\ Forall (probeOn hDevice) calls
    /\ option_list hit = map resultOf (filter recognized calls).
Proof.
  revert s. induction levels as [|access levels IH]; intros s.
  - exists None, [], s. cbn.
    split; [reflexivity|]. split; [apply madeCalls_nil|].
    split; [constructor|]. split; [constructor | reflexivity].
  - cbn [accessLoop methodCandidates map].
    destruct (ProbeIOCTL_run driver hDevice
                (CTL_CODE deviceType function method access) s)
      as (c & s1 & Hrun & Hcode & Hprobe & Hcall).
    unfold mbind, M_bind. rewrite Hrun. cbn [resultOf Valid].
    destruct (validFor (io_err (call_result c))) eqn:Hvalid.
    + exists (Some (resultOf c)), [c], s1.
      split; [reflexivity|]. split; [exact Hcall|].
      split; [apply cut_hit; assumption|].
      split; [constructor; [assumption | constructor]|].
      rewrite filter_cons_True by exact Hvalid. reflexivity.
    + assert (Hrec : ~ recognized c).
      { unfold recognized. rewrite Hvalid. discriminate. }
      destruct (IH s1) as (hit & calls & s' & Hloop & Hcalls & Hcut & Hall & Hhit).
      exists hit, (c :: calls), s'.
      split; [exact Hloop|].
      split; [apply (madeCalls_app driver s s1 s' [c] calls); assumption|].
      split; [apply cut_miss; assumption|].
      split; [constructor; assumption|].
      rewrite filter_cons_False by exact Hrec. exact Hhit.
Qed.

(** The same for the loop over the methods of one function value. *)
Lemma methodLoop_run (hDevice : HANDLE) (deviceType function : Z)
    (ms : list Z) (s : System DriverState) :
  exists hit calls s',
    methodLoop driver hDevice deviceType function ms s = Some (hit, s')
    /\ madeCalls driver s calls s'
    /\ cutAtFirstHit (candidatesOver deviceType function ms) calls
    /\ Forall (probeOn hDevice) calls
    /\ option_list hit = map resultOf (filter recognized calls).
Proof.
  revert s. induction ms as [|method ms IH]; intros s.
  - exists None, [], s. cbn.
    split; [reflexivity|]. split; [apply madeCalls_nil|].
    split; [constructor|]. split; [constructor | reflexivity].
  - cbn [methodLoop candidatesOver flat_map].
    destruct (accessLoop_run hDevice deviceType function method accessLevels s)
      as (hit & calls & s1 & Hrun & Hcalls & Hcut & Hall & Hhit).
    unfold mbind, M_bind. rewrite Hrun.
    destruct hit as [result|].
    + exists (Some result), calls, s1.
      split; [reflexivity|]. split; [exact Hcalls|].
      split; [|split; assumption].
      apply cut_app_hit; [exact Hcut|].
      intros Hnil. rewrite Hnil in Hhit. discriminate.
    + destruct (IH s1)
        as (hit' & calls' & s' & Hrun' & Hcalls' & Hcut' & Hall' & Hhit').
      assert (Hmiss : filter recognized calls = []).
      { destruct (filter recognized calls); [reflexivity | discriminate]. }
      exists hit', (calls ++ calls'), s'.
      split; [exact Hrun'|].
      split; [eapply madeCalls_app; eassumption|].
      split; [apply cut_app_miss; assumption|].
      split; [apply Forall_app; split; assumption|].
      rewrite filter_app, Hmiss. exact Hhit'.
Qed.

(** The loop over function values: one cut per function value, in order. *)
Lemma functionLoop_run (hDevice : HANDLE) (deviceType : Z)
    (functions : list Z) (acc : list IOCTLProbeResult)
    (s : System DriverState) :
  exists segments s',
    forEach functions
      (fun function results =>
         hit ← methodLoop driver hDevice deviceType function methods;
         mret (match hit with
               | Some result => results ++ [result]
               | None => results
               end))
      acc s
    = Some (acc ++ map resultOf (filter recognized (concat segments)), s')
    /\ madeCalls driver s (concat segments) s'
    /\ Forall2 (fun function segment =>
                  cutAtFirstHit (candidates deviceType function) segment)
         functions segments
    /\ Forall (probeOn hDevice) (concat segments).
Proof.
  set (body := fun (function : Z) (results : list IOCTLProbeResult) => _).
  revert acc s. induction functions as [|function functions IH]; intros acc s.
  - exists [], s. cbn. rewrite app_nil_r.
    split; [reflexivity|]. split; [apply madeCalls_nil|].
    split; constructor.
  - destruct (methodLoop_run hDevice deviceType function methods s)
      as (hit & calls & s1 & Hrun & Hcalls & Hcut & Hall & Hhit).
    assert (Hstep : body function acc s = Some (acc ++ option_list hit, s1)).
    { unfold body, mbind, M_bind. rewrite Hrun.
      destruct hit; cbn; rewrite ?app_nil_r; reflexivity. }
    cbn [forEach]. rewrite Hstep.
    destruct (IH (acc ++ option_list hit) s1)
      as (segments & s' & Hloop & Hcalls' & Hcuts & Hall').
    exists (calls :: segments), s'. cbn [concat].
    split.
    { rewrite Hloop, Hhit, filter_app, map_app, app_assoc. reflexivity. }
    split; [eapply madeCalls_app; eassumption|].
    split; [constructor; assumption|].
    apply Forall_app; split; assumption.
Qed.

(** With fuel for the longest range, the loop over the ranges runs the body
    once for each function value of the ranges. *)
Lemma rangeLoop_forEach (fuel : nat) (hDevice : HANDLE) (deviceType : Z)
    (ranges : list (Z * Z)) (acc : list IOCTLProbeResult)
    (s : System DriverState) :
  Forall (fun r => 0 <= fst r /\ snd r < U32.max
                   /\ (Z.to_nat (snd r - fst r + 1) <= fuel)%nat) ranges ->
  rangeLoop driver fuel hDevice deviceType ranges acc s
  = forEach (flat_map (fun r => closedRange (fst r) (snd r)) ranges)
      (fun function results =>
         hit ← methodLoop driver hDevice deviceType function methods;
         mret (match hit with
               | Some result => results ++ [result]
               | None => results
               end))
      acc s.
Proof.
  intros Hranges. revert acc s.
  induction Hranges as [|r ranges (Hfirst & Hlast & Hfuel) _ IH]; intros acc s.
  - reflexivity.
  - cbn [rangeLoop flat_map]. rewrite forEach_app.
    unfold mbind at 1, M_bind at 1.
    rewrite forUint32_forEach by assumption.
    match goal with
    | |- match ?x with _ => _ end = _ => destruct x as [[acc' s']|]
    end; [apply IH | reflexivity].
Qed.

Lemma scannedFunctions_ranges :
  flat_map (fun r => closedRange (fst r) (snd r)) functionRanges
  = scannedFunctions.
Proof.
  unfold functionRanges, scannedFunctions. cbn [flat_map fst snd].
  rewrite app_nil_r. reflexivity.
Qed.

(** The targeted scan returns for every amount of fuel from 513 on (the
    longest range holds 513 function values), and its run is the run of the
    body over the scanned function values. *)
Lemma DiscoverIOCTLsByDeviceType_run (fuel : nat) (hDevice : HANDLE)
    (deviceType : Z) (s : System DriverState) :
  (513 <= fuel)%nat ->
  exists segments s',
    DiscoverIOCTLsByDeviceType driver fuel hDevice deviceType s
    = Some (map resultOf (filter recognized (concat segments)), s')
    /\ madeCalls driver s (concat segments) s'
    /\ Forall2 (fun function segment =>
                  cutAtFirstHit (candidates deviceType function) segment)
         scannedFunctions segments
    /\ Forall (probeOn hDevice) (concat segments).
Proof.
  intros Hfuel. unfold DiscoverIOCTLsByDeviceType.
  rewrite rangeLoop_forEach.
  - rewrite scannedFunctions_ranges.
    apply (functionLoop_run hDevice deviceType scannedFunctions [] s).
  - unfold functionRanges, U32.max.
    repeat constructor; cbn [fst snd]; lia.
Qed.

End Discover.

(** ** The search space *)

Section SearchSpace.

Lemma closedRange_sorted (first last : Z) :
  StronglySorted Z.lt (closedRange first last).
Proof.
  remember (Z.to_nat (last - first + 1)) as n eqn:Hn.
  revert first Hn. induction n as [|n IH]; intros first Hn.
  - rewrite closedRange_nil by lia. constructor.
  - rewrite closedRange_cons by lia. constructor.
    + apply IH. lia.
    + apply Forall_forall. intros x Hx.
      apply elem_of_closedRange in Hx. lia.
Qed.

Lemma elem_of_scannedFunctions (function : Z) :
  function ∈ scannedFunctions <->
  0x000 <= function <= 0x100 \/ 0x400 <= function <= 0x600
  \/ 0x800 <= function <= 0x900 \/ 0xF00 <= function <= 0xFFF.
Proof.
  unfold scannedFunctions. rewrite !elem_of_app, !elem_of_closedRange.
  reflexivity.
Qed.

(** The sub-ranges are taken in order and each of them ascending: the
    scanned function values are strictly increasing. *)
Lemma scannedFunctions_sorted : StronglySorted Z.lt scannedFunctions.
Proof.
  assert (Hstep : forall first last l,
            StronglySorted Z.lt l ->
            (forall y, y ∈ l -> last < y) ->
            StronglySorted Z.lt (closedRange first last ++ l)).
  { intros first last l Hl Hlt. apply StronglySorted_app_2.
    - intros x y Hx Hy. apply elem_of_closedRange in Hx.
      specialize (Hlt y Hy). lia.
    - apply closedRange_sorted.
    - exact Hl. }
  unfold scannedFunctions.
  apply Hstep; [apply Hstep; [apply Hstep; [apply closedRange_sorted|]|]|];
    intros y; rewrite ?elem_of_app, !elem_of_closedRange; lia.
Qed.

Lemma scannedFunctions_NoDup : NoDup scannedFunctions.
Proof.
  pose proof scannedFunctions_sorted as Hsorted.
  induction Hsorted as [|x l Hsorted IH Hall]; constructor; [|exact IH].
  intros Hin. rewrite Forall_forall in Hall. specialize (Hall x Hin). lia.
Qed.

Lemma scannedFunctions_range (function : Z) :
  function ∈ scannedFunctions -> 0 <= function <= 0xFFF.
Proof. rewrite elem_of_scannedFunctions. lia. Qed.

(** The sixteen candidates of a function value: the methods BUFFERED,
    IN_DIRECT, OUT_DIRECT, NEITHER in this order and, under each method,
    the access levels ANY, READ, WRITE, READ|WRITE in this order. *)
Lemma candidates_sixteen (deviceType function : Z) :
  candidates deviceType function =
  [ CTL_CODE deviceType function METHOD_BUFFERED FILE_ANY_ACCESS;
    CTL_CODE deviceType function METHOD_BUFFERED FILE_READ_ACCESS;
    CTL_CODE deviceType function METHOD_BUFFERED FILE_WRITE_ACCESS;
    CTL_CODE deviceType function METHOD_BUFFERED 3;
    CTL_CODE deviceType function METHOD_IN_DIRECT FILE_ANY_ACCESS;
    CTL_CODE deviceType function METHOD_IN_DIRECT FILE_READ_ACCESS;
    CTL_CODE deviceType function METHOD_IN_DIRECT FILE_WRITE_ACCESS;
    CTL_CODE deviceType function METHOD_IN_DIRECT 3;
    CTL_CODE deviceType function METHOD_OUT_DIRECT FILE_ANY_ACCESS;
    CTL_CODE deviceType function METHOD_OUT_DIRECT FILE_READ_ACCESS;
    CTL_CODE deviceType function METHOD_OUT_DIRECT FILE_WRITE_ACCESS;
    CTL_CODE deviceType function METHOD_OUT_DIRECT 3;
    CTL_CODE deviceType function METHOD_NEITHER FILE_ANY_ACCESS;
    CTL_CODE deviceType function METHOD_NEITHER FILE_READ_ACCESS;
    CTL_CODE deviceType function METHOD_NEITHER FILE_WRITE_ACCESS;
    CTL_CODE deviceType function METHOD_NEITHER 3 ].
Proof. reflexivity. Qed.

(** Every candidate of a function value in [0, 0xFFF] carries that value in
    its function field. *)
Lemma candidates_function (deviceType function code : Z) :
  0 <= function <= 0xFFF ->
  code ∈ candidates deviceType function ->
  ExtractFunction code = function.
Proof.
  intros Hf. unfold candidates, candidatesOver, methodCandidates.
  rewrite list_elem_of_In, in_flat_map.
  intros (method & _ & Hin). apply in_map_iff in Hin as (access & <- & _).
  rewrite ExtractFunction_CTL_CODE.
  change 0xFFF with (Z.ones 12). apply land_ones_small; lia.
Qed.

End SearchSpace.

(** ** Coverage, order and early exit of the targeted scan *)

Section LogFacts.

(** The function field of a logged call and of a probe result. *)
Lemma Code_resultOf (c : IoControlCall) : Code (resultOf c) = call_code c.
Proof. reflexivity. Qed.

(** The calls of the segment of a function value all carry that value. *)
Lemma segment_function (deviceType function : Z)
    (segment : list IoControlCall) (c : IoControlCall) :
  0 <= function <= 0xFFF ->
  cutAtFirstHit (candidates deviceType function) segment ->
  c ∈ segment ->
  ExtractFunction (call_code c) = function.
Proof.
  intros Hf Hcut Hin. apply (candidates_function deviceType); [exact Hf|].
  eapply cut_codes; eassumption.
Qed.

Lemma segments_functions (deviceType : Z) (functions : list Z)
    (segments : list (list IoControlCall)) (c : IoControlCall) :
  (forall f, f ∈ functions -> 0 <= f <= 0xFFF) ->
  Forall2 (fun function segment =>
             cutAtFirstHit (candidates deviceType function) segment)
    functions segments ->
  c ∈ concat segments ->
  ExtractFunction (call_code c) ∈ functions.
Proof.
  intros Hrange Hcuts. induction Hcuts as [|f segment fs segs Hcut Hcuts IH];
    cbn [concat].
  - rewrite elem_of_nil. tauto.
  - rewrite elem_of_app. intros [Hin | Hin].
    + rewrite (segment_function deviceType f segment c); 
        [apply list_elem_of_here | apply Hrange, list_elem_of_here | exact Hcut
        | exact Hin].
    + apply list_elem_of_further, IH; [|exact Hin].
      intros f' Hf'. apply Hrange, list_elem_of_further, Hf'.
Qed.

(** In the log of the segments of distinct function values, no call that
    follows a recognized call carries the function value of that call. *)
Lemma no_probe_after_hit (deviceType : Z) (functions : list Z)
    (segments : list (list IoControlCall))
    (before after : list IoControlCall) (c c' : IoControlCall) :
  NoDup functions ->
  (forall f, f ∈ functions -> 0 <= f <= 0xFFF) ->
  Forall2 (fun function segment =>
             cutAtFirstHit (candidates deviceType function) segment)
    functions segments ->
  concat segments = before ++ c :: after ->
  recognized c ->
  c' ∈ after ->
  ExtractFunction (call_code c') <> ExtractFunction (call_code c).
Proof.
  intros Hnodup Hrange Hcuts. revert before.
  induction Hcuts as [|f segment fs segs Hcut Hcuts IH]; intros before Heq Hrec Hin.
  - destruct before; discriminate.
  - apply NoDup_cons in Hnodup as [Hfresh Hnodup].
    assert (Hrange' : forall f', f' ∈ fs -> 0 <= f' <= 0xFFF).
    { intros f' Hf'. apply Hrange, list_elem_of_further, Hf'. }
    cbn [concat] in Heq.
    apply app_eq_inv in Heq as [(k & Hseg & Hrest) | (k & Hbefore & Hrest)].
    + destruct k as [|c0 k].
      * rewrite app_nil_l in Hrest. 
        apply (IH Hnodup Hrange' []); [symmetry; exact Hrest | exact Hrec | exact Hin].
      * injection Hrest as <- Hafter.
        assert (k = []) as -> by (eapply cut_recognized_last; eassumption).
        rewrite app_nil_l in Hafter. subst after.
        assert (Hc : ExtractFunction (call_code c) = f).
        { apply (segment_function deviceType f segment);
            [apply Hrange, list_elem_of_here | exact Hcut|].
          rewrite Hseg, elem_of_app, elem_of_cons. tauto. }
        rewrite Hc. intros Heq.
        apply Hfresh. rewrite <- Heq.
        eapply segments_functions; eassumption.
    + apply (IH Hnodup Hrange' k); [exact Hrest | exact Hrec | exact Hin].
Qed.

(** When nothing that follows an element satisfying [P] has the same key,
    the elements satisfying [P] have pairwise distinct keys. *)
Lemma NoDup_keys_of_filter {A : Type} (P : A -> Prop)
    `{forall x, Decision (P x)} (key : A -> Z) (l : list A) :
  (forall before x after x',
     l = before ++ x :: after -> P x -> x' ∈ after -> key x' <> key x) ->
  NoDup (map key (filter P l)).
Proof.
  induction l as [|x l IH]; intros Hlater; [constructor|].
  assert (Htail : NoDup (map key (filter P l))).
  { apply IH. intros before y after y' -> Hy Hy'.
    apply (Hlater (x :: before) y after y'); [reflexivity | exact Hy | exact Hy']. }
  rewrite filter_cons. destruct (decide (P x)) as [Hx|Hx]; [|exact Htail].
  cbn [map]. constructor; [|exact Htail].
  rewrite list_elem_of_In, in_map_iff. intros (x' & Hkey & Hin).
  apply list_elem_of_In, list_elem_of_filter in Hin as [_ Hin].
  apply (Hlater [] x l x'); [reflexivity | exact Hx | exact Hin | exact Hkey].
Qed.

(** Among elements with pairwise distinct keys, the number of those with a
    given key is one when there is such an element and zero otherwise. *)
Lemma count_key_NoDup {A : Type} (key : A -> Z) (l : list A) (v : Z) :
  NoDup (map key l) ->
  length (filter (fun x => key x = v) l)
  = if decide (Exists (fun x => key x = v) l) then 1%nat else 0%nat.
Proof.
  induction l as [|x l IH]; intros Hnodup.
  - cbn. destruct (decide _) as [Hex|]; [inversion Hex | reflexivity].
  - cbn [map] in Hnodup. apply NoDup_cons in Hnodup as [Hfresh Hnodup].
    specialize (IH Hnodup). rewrite filter_cons.
    destruct (decide (key x = v)) as [Hx|Hx].
    + destruct (decide (Exists _ (x :: l))) as [_|Hno];
        [|exfalso; apply Hno; constructor; exact Hx].
      destruct (decide (Exists _ l)) as [Hex|_].
      * exfalso. apply Hfresh. apply Exists_exists in Hex as (y & Hy & Hkey).
        rewrite Hx, <- Hkey. apply list_elem_of_fmap_2, Hy.
      * cbn [length]. rewrite IH. reflexivity.
    + rewrite IH. destruct (decide (Exists _ l)) as [Hex|Hno];
        destruct (decide (Exists _ (x :: l))) as [Hex'|Hno']; try reflexivity.
      * exfalso. apply Hno'. apply Exists_cons_tl, Hex.
      * exfalso. apply Exists_cons in Hex' as [?|?]; contradiction.
Qed.

End LogFacts.

Section DiscoverClaims.

Context {DriverState : Type}.
Variable driver :
  DriverState -> HANDLE -> Z -> Z -> Z -> IoControlResult * DriverState.

(** C4. Coverage and order of the targeted scan.  With fuel for the longest
    sub-range the scan returns, and the calls it has made are probes on the
    given handle that split into one segment per scanned function value, in
    scan order; the scanned function values are those of [0,0x100],
    [0x400,0x600], [0x800,0x900] and [0xF00,0xFFF], strictly increasing; and
    the segment of a function value probes its sixteen candidates
    [CTL_CODE deviceType function method access] (four methods, under each
    the four access levels) in order, cut only by the early-exit rule. *)
Theorem DiscoverIOCTLsByDeviceType_coverage (fuel : nat) (hDevice : HANDLE)
    (deviceType : Z) (s : System DriverState) :
  (513 <= fuel)%nat ->
  exists results segments s',
    DiscoverIOCTLsByDeviceType driver fuel hDevice deviceType s
    = Some (results, s')
    /\ madeCalls driver s (concat segments) s'
    /\ Forall (probeOn hDevice) (concat segments)
    /\ Forall2 (fun function segment =>
                  cutAtFirstHit (candidates deviceType function) segment)
         scannedFunctions segments
    /\ (forall function,
          function ∈ scannedFunctions <->
          0x000 <= function <= 0x100 \/ 0x400 <= function <= 0x600
          \/ 0x800 <= function <= 0x900 \/ 0xF00 <= function <= 0xFFF)
    /\ StronglySorted Z.lt scannedFunctions
    /\ (forall function,
          candidates deviceType function =
          [ CTL_CODE deviceType function METHOD_BUFFERED FILE_ANY_ACCESS;
            CTL_CODE deviceType function METHOD_BUFFERED FILE_READ_ACCESS;
            CTL_CODE deviceType function METHOD_BUFFERED FILE_WRITE_ACCESS;
            CTL_CODE deviceType function METHOD_BUFFERED 3;
            CTL_CODE deviceType function METHOD_IN_DIRECT FILE_ANY_ACCESS;
            CTL_CODE deviceType function METHOD_IN_DIRECT FILE_READ_ACCESS;
            CTL_CODE deviceType function METHOD_IN_DIRECT FILE_WRITE_ACCESS;
            CTL_CODE deviceType function METHOD_IN_DIRECT 3;
            CTL_CODE deviceType function METHOD_OUT_DIRECT FILE_ANY_ACCESS;
            CTL_CODE deviceType function METHOD_OUT_DIRECT FILE_READ_ACCESS;
            CTL_CODE deviceType function METHOD_OUT_DIRECT FILE_WRITE_ACCESS;
            CTL_CODE deviceType function METHOD_OUT_DIRECT 3;
            CTL_CODE deviceType function METHOD_NEITHER FILE_ANY_ACCESS;
            CTL_CODE deviceType function METHOD_NEITHER FILE_READ_ACCESS;
            CTL_CODE deviceType function METHOD_NEITHER FILE_WRITE_ACCESS;
            CTL_CODE deviceType function METHOD_NEITHER 3 ]).
Proof.
  intros Hfuel.
  destruct (DiscoverIOCTLsByDeviceType_run driver fuel hDevice deviceType s Hfuel)
    as (segments & s' & Hrun & Hcalls & Hcuts & Hall).
  eexists _, segments, s'.
  split; [exact Hrun|]. split; [exact Hcalls|]. split; [exact Hall|].
  split; [exact Hcuts|]. split; [apply elem_of_scannedFunctions|].
  split; [apply scannedFunctions_sorted | apply candidates_sixteen].
Qed.

(** C3. Early-exit rule.  With fuel for the longest sub-range the targeted
    scan returns; in the calls it has made, no call that follows a
    recognized call carries the function value of that call (the probing of
    a function value stops with its first recognized combination); the
    result is the list of the recognized probes, in order; its entries have
    pairwise distinct function values; and for every function value the
    result holds exactly one entry when some probe of that function value
    was recognized, and none otherwise. *)
Theorem DiscoverIOCTLsByDeviceType_early_exit (fuel : nat) (hDevice : HANDLE)
    (deviceType : Z) (s : System DriverState) :
  (513 <= fuel)%nat ->
  exists results calls s',
    DiscoverIOCTLsByDeviceType driver fuel hDevice deviceType s
    = Some (results, s')
    /\ madeCalls driver s calls s'
    /\ (forall before c after c',
          calls = before ++ c :: after ->
          recognized c ->
          c' ∈ after ->
          ExtractFunction (call_code c') <> ExtractFunction (call_code c))
    /\ results = map resultOf (filter recognized calls)
    /\ NoDup (map (fun r => ExtractFunction (Code r)) results)
    /\ (forall function,
          length (filter (fun r => ExtractFunction (Code r) = function) results)
          = if decide (Exists (fun c => recognized c
                         /\ ExtractFunction (call_code c) = function) calls)
            then 1%nat else 0%nat).
Proof.
  intros Hfuel.
  destruct (DiscoverIOCTLsByDeviceType_run driver fuel hDevice deviceType s Hfuel)
    as (segments & s' & Hrun & Hcalls & Hcuts & _).
  set (calls := concat segments) in *.
  assert (Hexit : forall before c after c',
            calls = before ++ c :: after -> recognized c -> c' ∈ after ->
            ExtractFunction (call_code c') <> ExtractFunction (call_code c)).
  { intros before c after c' Heq Hrec Hin.
    eapply (no_probe_after_hit deviceType scannedFunctions segments);
      eauto using scannedFunctions_NoDup, scannedFunctions_range. }
  assert (Hnodup : NoDup (map (fun r => ExtractFunction (Code r))
                            (map resultOf (filter recognized calls)))).
  { rewrite map_map.
    apply (NoDup_keys_of_filter recognized
             (fun c => ExtractFunction (Code (resultOf c)))).
    exact Hexit. }
  eexists _, calls, s'.
  split; [exact Hrun|]. split; [exact Hcalls|]. split; [exact Hexit|].
  split; [reflexivity|]. split; [exact Hnodup|].
  intros function.
  rewrite (count_key_NoDup (fun r => ExtractFunction (Code r)) _ function Hnodup).
  destruct (decide (Exists _ (map resultOf _))) as [Hex|Hno];
    destruct (decide (Exists _ calls)) as [Hex'|Hno']; try reflexivity; exfalso.
  - apply Hno'. apply Exists_exists in Hex as (r & Hr & Hkey).
    apply list_elem_of_fmap in Hr as (c & -> & Hc).
    apply list_elem_of_filter in Hc as [Hrec Hc].
    apply Exists_exists. exists c. auto.
  - apply Hno. apply Exists_exists in Hex' as (c & Hc & Hrec & Hkey).
    apply Exists_exists. exists (resultOf c). split; [|exact Hkey].
    apply list_elem_of_fmap_2, list_elem_of_filter. auto.
Qed.

End DiscoverClaims.

Lemma DiscoverIOCTLsByDeviceType_coverage_witness :
  exists results segments s',
    DiscoverIOCTLsByDeviceType sampleDriver 513 1 FILE_DEVICE_DISK freshSystem
    = Some (results, s')
    /\ sys_calls s' = concat segments
    /\ Forall2 (fun function segment =>
                  cutAtFirstHit (candidates FILE_DEVICE_DISK function) segment)
         scannedFunctions segments.
Proof.
  destruct (DiscoverIOCTLsByDeviceType_coverage sampleDriver 513 1
              FILE_DEVICE_DISK freshSystem)
    as (results & segments & s' & Hrun & [Hlog _] & _ & Hcuts & _); [lia|].
  exists results, segments, s'. auto.
Defined.

Lemma DiscoverIOCTLsByDeviceType_early_exit_witness :
  exists results s',
    DiscoverIOCTLsByDeviceType sampleDriver 513 1 FILE_DEVICE_DISK freshSystem
    = Some (results, s')
    /\ results = map resultOf (filter recognized (sys_calls s'))
    /\ NoDup (map (fun r => ExtractFunction (Code r)) results).
Proof.
  destruct (DiscoverIOCTLsByDeviceType_early_exit sampleDriver 513 1
              FILE_DEVICE_DISK freshSystem)
    as (results & calls & s' & Hrun & [Hlog _] & _ & Hres & Hnodup & _); [lia|].
  exists results, s'. cbn in Hlog. rewrite Hlog. auto.
Defined.

(** * Further properties of the codec and the formatters *)

Section CodecMore.

Lemma testbit_bounded (x k i : Z) :
  0 <= x < 2 ^ k -> 0 <= k <= i -> Z.testbit x i = false.
Proof.
  intros Hx Hk. rewrite <- (Z.mod_small x (2 ^ k)) by exact Hx.
  apply Z.mod_pow2_bits_high. exact Hk.
Qed.

(** The four fields partition the 32 bits of a code. *)
Lemma code_of_fields (ioctlCode : Z) :
  U32.is_u32 ioctlCode ->
  ioctlCode =
    Z.lor (Z.lor (Z.lor (U32.shl (ExtractDeviceType ioctlCode) 16)
                        (U32.shl (ExtractAccess ioctlCode) 14))
                 (U32.shl (ExtractFunction ioctlCode) 2))
          (ExtractMethod ioctlCode).
Proof.
  intros Hu32.
  assert (Hhigh : forall i, 32 <= i -> Z.testbit ioctlCode i = false).
  { intros i Hi. apply (testbit_bounded ioctlCode 32); [exact Hu32 | lia]. }
  unfold ExtractDeviceType, ExtractFunction, ExtractMethod, ExtractAccess.
  change 0xFFFF with (Z.ones 16). change 0xFFF with (Z.ones 12).
  change 0x3 with (Z.ones 2).
  apply Z.bits_inj'. intros i Hi.
  repeat first
    [ rewrite testbit_mask by lia
    | rewrite testbit_shl32 by lia
    | rewrite testbit_shr32 by lia
    | rewrite Z.lor_spec ].
  repeat match goal with
  | |- context [?a <? ?b] => destruct (Z.ltb_spec a b)
  | |- context [?a <=? ?b] => destruct (Z.leb_spec a b)
  end;
  cbn; rewrite ?andb_false_r, ?andb_true_r, ?orb_false_r; cbn;
  rewrite ?testbit_shr32 by lia;
  try lia; try reflexivity; try (f_equal; lia); apply Hhigh; lia.
Qed.

(** X1. The extraction functions lose nothing: two 32-bit codes with the
    same device type, function, method and access fields are the same
    code. *)
Theorem fields_determine_code (code1 code2 : Z) :
  U32.is_u32 code1 ->
  U32.is_u32 code2 ->
  ExtractDeviceType code1 = ExtractDeviceType code2 ->
  ExtractFunction code1 = ExtractFunction code2 ->
  ExtractMethod code1 = ExtractMethod code2 ->
  ExtractAccess code1 = ExtractAccess code2 ->
  code1 = code2.
Proof.
  intros H1 H2 Hdt Hf Hm Ha.
  rewrite (code_of_fields code1 H1), (code_of_fields code2 H2).
  rewrite Hdt, Hf, Hm, Ha. reflexivity.
Qed.

Lemma fields_determine_code_witness :
  Z.lor (Z.shiftl 0x12 16) 0x848D = 0x00120000 + 0x848D.
Proof.
  apply (fields_determine_code
           (Z.lor (Z.shiftl 0x12 16) 0x848D) (0x00120000 + 0x848D));
    first [ reflexivity | vm_compute; split; [discriminate | reflexivity] ].
Defined.

End CodecMore.

(** ** Name lookup: the fallbacks *)

Section NameFallbacks.

Lemma deviceTypeNames_keys (deviceType : Z) (name : string) :
  deviceTypeNames !! deviceType = Some name -> 0x01 <= deviceType <= 0x3B.
Proof.
  unfold deviceTypeNames. intros Hlookup.
  apply elem_of_list_to_map_2 in Hlookup.
  match type of Hlookup with
  | _ ∈ ?l =>
      assert (Hall : Forall (fun p : Z * string => 0x01 <= p.1 <= 0x3B) l)
        by (apply (bool_decide_unpack _); vm_compute; exact I)
  end.
  rewrite Forall_forall in Hall. apply (Hall _ Hlookup).
Qed.

Lemma deviceTypeNames_known (deviceType : Z) :
  0x01 <= deviceType <= 0x3B ->
  exists name,
    deviceTypeNames !! deviceType = Some name
    /\ name <> "CUSTOM"%string /\ name <> EmptyString.
Proof.
  intros Hrange.
  assert (Hall : Forall (fun k : Z =>
            match deviceTypeNames !! k with
            | Some name =>
                negb (String.eqb name "CUSTOM")
                && negb (String.eqb name EmptyString)
            | None => false
            end = true) (seqZ 0x01 0x3B))
    by (apply (bool_decide_unpack _); vm_compute; exact I).
  rewrite Forall_forall in Hall.
  specialize (Hall deviceType). rewrite elem_of_seqZ in Hall.
  specialize (Hall ltac:(lia)).
  destruct (deviceTypeNames !! deviceType) as [name|]; [|discriminate].
  exists name. split; [reflexivity|].
  apply andb_true_iff in Hall as [Hc He].
  apply negb_true_iff in Hc, He. apply String.eqb_neq in Hc, He. auto.
Qed.

(** X2. The device-type name by value: a device type from [0x8000] up is
    "CUSTOM"; a device type below [0x8000] that is [0] or above [0x3B] is
    "UNKNOWN"; a device type of [0x01..0x3B] has the name of its table
    entry, which is never "CUSTOM". *)
Theorem GetDeviceTypeName_by_value (deviceType : Z) :
  (0x8000 <= deviceType -> GetDeviceTypeName deviceType = "CUSTOM"%string)
  /\ (deviceType < 0x8000 -> deviceType <= 0 \/ 0x3B < deviceType ->
        GetDeviceTypeName deviceType = "UNKNOWN"%string)
  /\ (0x01 <= deviceType <= 0x3B ->
        deviceTypeNames !! deviceType = Some (GetDeviceTypeName deviceType)
        /\ GetDeviceTypeName deviceType <> "CUSTOM"%string).
Proof.
  unfold GetDeviceTypeName. split; [|split].
  - intros Hge.
    destruct (deviceTypeNames !! deviceType) as [name|] eqn:Hlookup.
    + apply deviceTypeNames_keys in Hlookup. lia.
    + apply Z.leb_le in Hge. rewrite Hge. reflexivity.
  - intros Hlt Hout.
    destruct (deviceTypeNames !! deviceType) as [name|] eqn:Hlookup.
    + apply deviceTypeNames_keys in Hlookup. lia.
    + apply Z.leb_gt in Hlt. rewrite Hlt. reflexivity.
  - intros Hin. destruct (deviceTypeNames_known deviceType Hin)
      as (name & -> & Hcustom & _). auto.
Qed.

Lemma GetDeviceTypeName_by_value_witness :
  GetDeviceTypeName 0xFFFF = "CUSTOM"%string
  /\ GetDeviceTypeName 0x7FFF = "UNKNOWN"%string
  /\ GetDeviceTypeName 0x3B <> "CUSTOM"%string.
Proof.
  split; [|split].
  - apply (GetDeviceTypeName_by_value 0xFFFF). lia.
  - apply (GetDeviceTypeName_by_value 0x7FFF); lia.
  - apply (GetDeviceTypeName_by_value 0x3B). lia.
Defined.

Lemma small_names_keys (names : list (Z * string)) (key : Z) :
  key ∉ names.*1 -> (list_to_map names : gmap Z string) !! key = None.
Proof. apply not_elem_of_list_to_map_1. Qed.

(** X3. The method and access names fall back to "INVALID" exactly outside
    [0..3]; the access name [DecodeIOCTL] gives is therefore one of the
    four defined names for every code. *)
Theorem INVALID_exactly_outside_range (value : Z) :
  (GetMethodName value = "INVALID"%string <-> ~ 0 <= value <= 3)
  /\ (GetAccessName value = "INVALID"%string <-> ~ 0 <= value <= 3)
  /\ AccessName (DecodeIOCTL value) ∈
       ["ANY"; "READ"; "WRITE"; "READ_WRITE"]%string.
Proof.
  assert (Hout : ~ 0 <= value <= 3 ->
            methodNames !! value = None /\ accessNames !! value = None).
  { intros Hnot. split; apply small_names_keys; cbn;
      rewrite !elem_of_cons, elem_of_nil;
      unfold METHOD_BUFFERED, METHOD_IN_DIRECT, METHOD_OUT_DIRECT,
        METHOD_NEITHER, FILE_ANY_ACCESS, FILE_READ_ACCESS, FILE_WRITE_ACCESS;
      lia. }
  assert (Hin : forall v, 0 <= v <= 3 ->
            GetMethodName v <> "INVALID"%string
            /\ GetAccessName v <> "INVALID"%string
            /\ GetAccessName v ∈ ["ANY"; "READ"; "WRITE"; "READ_WRITE"]%string).
  { intros v Hv.
    assert (Hcases : v = 0 \/ v = 1 \/ v = 2 \/ v = 3) by lia.
    rewrite !elem_of_cons.
    destruct Hcases as [-> | [-> | [-> | ->]]];
      vm_compute GetMethodName; vm_compute GetAccessName;
      repeat split; try discriminate; tauto. }
  split; [|split].
  - split.
    + intros Hname Hrange. destruct (Hin value Hrange) as (Hm & _). auto.
    + intros Hnot. unfold GetMethodName.
      destruct (Hout Hnot) as [-> _]. reflexivity.
  - split.
    + intros Hname Hrange. destruct (Hin value Hrange) as (_ & Ha & _). auto.
    + intros Hnot. unfold GetAccessName.
      destruct (Hout Hnot) as [_ ->]. reflexivity.
  - cbn [DecodeIOCTL AccessName]. apply Hin.
    unfold ExtractAccess.
    change (Z.land ?x 0x3) with (Z.land x (Z.ones 2)).
    pose proof (land_ones_range (U32.shr value 14) 2 ltac:(lia)) as H.
    change (2 ^ 2) with 4 in H. lia.
Qed.

Lemma INVALID_exactly_outside_range_witness :
  GetMethodName 4 = "INVALID"%string /\ GetAccessName (-1) = "INVALID"%string.
Proof.
  split.
  - apply (INVALID_exactly_outside_range 4). lia.
  - apply (INVALID_exactly_outside_range (-1)). lia.
Defined.

End NameFallbacks.

(** ** Hexadecimal rendering *)

Section Hex.

Lemma append_cons (c : ascii) (s1 s2 : string) :
  String c s1 +:+ s2 = String c (s1 +:+ s2).
Proof. reflexivity. Qed.

Lemma append_nil_l (s : string) : EmptyString +:+ s = s.
Proof. reflexivity. Qed.

Lemma append_assoc (s1 s2 s3 : string) :
  (s1 +:+ s2) +:+ s3 = s1 +:+ (s2 +:+ s3).
Proof.
  induction s1 as [|c s1 IH]; [reflexivity|].
  rewrite !append_cons, IH. reflexivity.
Qed.

Lemma append_nil_r (s : string) : s +:+ EmptyString = s.
Proof.
  induction s as [|c s IH]; [reflexivity|]. rewrite append_cons, IH.
  reflexivity.
Qed.

Lemma length_append (s1 s2 : string) :
  String.length (s1 +:+ s2) = (String.length s1 + String.length s2)%nat.
Proof.
  induction s1 as [|c s1 IH]; [reflexivity|].
  rewrite append_cons. cbn [String.length]. rewrite IH. reflexivity.
Qed.

(** Texts with equally long heads that are equal have equal heads. *)
Lemma append_head_inj (a1 a2 r1 r2 : string) :
  String.length a1 = String.length a2 ->
  a1 +:+ r1 = a2 +:+ r2 ->
  a1 = a2.
Proof.
  revert a2. induction a1 as [|c a1 IH]; intros [|c2 a2] Hlen Heq;
    try discriminate; [reflexivity|].
  rewrite !append_cons in Heq. injection Heq as -> Heq.
  injection Hlen as Hlen. f_equal. apply IH; assumption.
Qed.

Lemma hexValueFrom_append (acc : Z) (s1 s2 : string) :
  hexValueFrom acc (s1 +:+ s2) = hexValueFrom (hexValueFrom acc s1) s2.
Proof.
  revert acc. induction s1 as [|c s1 IH]; intros acc; [reflexivity|].
  rewrite append_cons. cbn [hexValueFrom]. apply IH.
Qed.

Lemma hexDigitValue_hexDigit (d : Z) :
  0 <= d < 16 -> hexDigitValue (Fmt.hexDigit d) = d.
Proof.
  intros Hd.
  assert (Hcases : Forall (fun k => hexDigitValue (Fmt.hexDigit k) = k)
                     (seqZ 0 16))
    by (apply (bool_decide_unpack _); vm_compute; exact I).
  rewrite Forall_forall in Hcases. apply Hcases, elem_of_seqZ. lia.
Qed.

(** The digits [hexDigits] writes in front of [acc]: at least one, no more
    than the number needs, and they denote [v]. *)
Lemma hexDigits_spec (fuel : nat) (v : Z) (acc : string) (w : nat) :
  (1 <= w <= fuel)%nat ->
  0 <= v < 16 ^ Z.of_nat w ->
  exists digits,
    Fmt.hexDigits fuel v acc = digits +:+ acc
    /\ (1 <= String.length digits <= w)%nat
    /\ forall a, hexValueFrom a digits
                 = a * 16 ^ Z.of_nat (String.length digits) + v.
Proof.
  revert v acc w. induction fuel as [|fuel IH]; intros v acc w Hw Hv; [lia|].
  cbn [Fmt.hexDigits].
  assert (Hmod : 0 <= v mod 16 < 16) by (apply Z.mod_pos_bound; lia).
  pose proof (Z.div_mod v 16 ltac:(lia)) as Hdivmod.
  destruct (Z.eqb_spec (v / 16) 0) as [Hzero|Hnonzero].
  - exists (String (Fmt.hexDigit (v mod 16)) EmptyString).
    split; [reflexivity|]. split; [cbn; lia|].
    intros a. cbn. rewrite hexDigitValue_hexDigit by exact Hmod. lia.
  - assert (Hpos : 0 < v / 16).
    { pose proof (Z.div_pos v 16 ltac:(lia) ltac:(lia)). lia. }
    destruct w as [|w]; [lia|].
    assert (Hdiv : v / 16 < 16 ^ Z.of_nat w).
    { apply Z.div_lt_upper_bound; [lia|].
      rewrite <- Z.pow_succ_r by lia. rewrite <- Nat2Z.inj_succ. lia. }
    assert (Hw' : (1 <= w)%nat).
    { destruct w; [|lia]. cbn in Hdiv. lia. }
    destruct (IH (v / 16) (String (Fmt.hexDigit (v mod 16)) acc) w
                ltac:(lia) ltac:(lia))
      as (digits & Heq & Hlen & Hval).
    exists (digits +:+ String (Fmt.hexDigit (v mod 16)) EmptyString).
    split; [rewrite Heq, append_assoc; reflexivity|].
    split; [rewrite length_append; cbn; lia|].
    intros a. rewrite hexValueFrom_append, Hval, length_append. cbn.
    rewrite hexDigitValue_hexDigit by exact Hmod.
    replace (Z.of_nat (String.length digits + 1))
      with (Z.succ (Z.of_nat (String.length digits))) by lia.
    rewrite Z.pow_succ_r by lia. lia.
Qed.

Lemma length_zeros (n : nat) : String.length (Fmt.zeros n) = n.
Proof. induction n as [|n IH]; cbn; [reflexivity | rewrite IH; reflexivity]. Qed.

Lemma hexValueFrom_zeros (acc : Z) (n : nat) :
  hexValueFrom acc (Fmt.zeros n) = acc * 16 ^ Z.of_nat n.
Proof.
  revert acc. induction n as [|n IH]; intros acc.
  - cbn. lia.
  - cbn [Fmt.zeros hexValueFrom]. rewrite IH.
    change (hexDigitValue "0") with 0.
    rewrite Nat2Z.inj_succ, Z.pow_succ_r by lia. lia.
Qed.

(** [%X] of a number of at most [w] hexadecimal digits ([w <= 8]) has
    between 1 and [w] characters and reads back as the number. *)
Lemma X_spec (w : nat) (v : Z) :
  (1 <= w <= 8)%nat ->
  0 <= v < 16 ^ Z.of_nat w ->
  (1 <= String.length (Fmt.X v) <= w)%nat /\ hexValue (Fmt.X v) = v.
Proof.
  intros Hw Hv. unfold Fmt.X, hexValue.
  destruct (hexDigits_spec 8 v EmptyString w ltac:(lia) Hv)
    as (digits & Heq & Hlen & Hval).
  rewrite Heq, append_nil_r. split; [exact Hlen|]. rewrite Hval. lia.
Qed.

(** [%0wX] of such a number is exactly [w] characters long and reads back
    as the number. *)
Lemma X0_spec (w : nat) (v : Z) :
  (1 <= w <= 8)%nat ->
  0 <= v < 16 ^ Z.of_nat w ->
  String.length (Fmt.X0 w v) = w /\ hexValue (Fmt.X0 w v) = v.
Proof.
  intros Hw Hv. destruct (X_spec w v Hw Hv) as [Hlen Hval].
  unfold Fmt.X0, hexValue in *. cbv zeta.
  rewrite length_append, length_zeros, hexValueFrom_append, hexValueFrom_zeros.
  split; [lia|]. rewrite Z.mul_0_l. exact Hval.
Qed.

Lemma ExtractFunction_range (ioctlCode : Z) :
  0 <= ExtractFunction ioctlCode <= 0xFFF.
Proof.
  unfold ExtractFunction.
  change (Z.land ?x 0xFFF) with (Z.land x (Z.ones 12)).
  pose proof (land_ones_range (U32.shr ioctlCode 2) 12 ltac:(lia)) as H.
  change (2 ^ 12) with 0x1000 in H. lia.
Qed.

Lemma ExtractAccess_range (ioctlCode : Z) : 0 <= ExtractAccess ioctlCode <= 3.
Proof.
  unfold ExtractAccess.
  change (Z.land ?x 0x3) with (Z.land x (Z.ones 2)).
  pose proof (land_ones_range (U32.shr ioctlCode 14) 2 ltac:(lia)) as H.
  change (2 ^ 2) with 4 in H. lia.
Qed.

(** X4. The hexadecimal rendering of a 32-bit code is always 59 characters
    long, its eight digits after "0x" read back as the code, and two
    different codes never have the same rendering. *)
Theorem FormatIOCTLHex_faithful (code1 code2 : Z) :
  U32.is_u32 code1 ->
  U32.is_u32 code2 ->
  String.length (FormatIOCTLHex code1) = 59%nat
  /\ (exists rest,
        FormatIOCTLHex code1 = "0x" +:+ Fmt.X0 8 code1 +:+ rest
        /\ String.length (Fmt.X0 8 code1) = 8%nat
        /\ hexValue (Fmt.X0 8 code1) = code1)
  /\ (FormatIOCTLHex code1 = FormatIOCTLHex code2 -> code1 = code2).
Proof.
  intros H1 H2.
  assert (Hcode : forall c, U32.is_u32 c -> 0 <= c < 16 ^ Z.of_nat 8).
  { intros c Hc. exact Hc. }
  destruct (X0_spec 8 code1 ltac:(lia) (Hcode _ H1)) as [Hlen1 Hval1].
  destruct (X0_spec 8 code2 ltac:(lia) (Hcode _ H2)) as [Hlen2 Hval2].
  split; [|split].
  - unfold FormatIOCTLHex. cbn [DecodeIOCTL IOCTLCode DeviceType Access
      Function Method].
    pose proof (ExtractDeviceType_range code1) as Hdt.
    pose proof (ExtractFunction_range code1) as Hf.
    pose proof (ExtractAccess_range code1) as Ha.
    pose proof (ExtractMethod_range code1) as Hm.
    destruct (X0_spec 4 (ExtractDeviceType code1) ltac:(lia)) as [Hl4 _];
      [change (16 ^ Z.of_nat 4) with 0x10000; lia|].
    destruct (X0_spec 3 (ExtractFunction code1) ltac:(lia)) as [Hl3 _];
      [change (16 ^ Z.of_nat 3) with 0x1000; lia|].
    destruct (X_spec 1 (ExtractAccess code1) ltac:(lia)) as [Hla _];
      [change (16 ^ Z.of_nat 1) with 16; lia|].
    destruct (X_spec 1 (ExtractMethod code1) ltac:(lia)) as [Hlm _];
      [change (16 ^ Z.of_nat 1) with 16; lia|].
    rewrite !length_append, Hlen1, Hl4, Hl3. cbn [String.length]. lia.
  - eexists. split; [reflexivity|]. split; assumption.
  - unfold FormatIOCTLHex. cbn [DecodeIOCTL IOCTLCode].
    intros Heq. rewrite !(append_cons _ _ _), !append_nil_l in Heq.
    injection Heq as Heq.
    apply append_head_inj in Heq; [|congruence].
    rewrite <- Hval1, <- Hval2, Heq. reflexivity.
Qed.

Lemma FormatIOCTLHex_faithful_witness :
  String.length (FormatIOCTLHex 0xFFFFFFFF) = 59%nat.
Proof.
  apply (FormatIOCTLHex_faithful 0xFFFFFFFF 0);
    unfold U32.is_u32, U32.modulus; lia.
Defined.

Lemma knownIOCTLs_device_types (ioctlCode : Z) (name : string) :
  knownIOCTLs !! ioctlCode = Some name ->
  ExtractDeviceType ioctlCode < 0x8000 /\ name <> EmptyString.
Proof.
  unfold knownIOCTLs. intros Hlookup.
  apply elem_of_list_to_map_2 in Hlookup.
  match type of Hlookup with
  | _ ∈ ?l =>
      assert (Hall : Forall (fun p : Z * string =>
                ExtractDeviceType p.1 < 0x8000 /\ p.2 <> EmptyString) l)
        by (apply (bool_decide_unpack _); vm_compute; exact I)
  end.
  rewrite Forall_forall in Hall. apply (Hall _ Hlookup).
Qed.

(** X5. The compact rendering does not tell custom device types apart: two
    codes whose device types are both [0x8000] or above and whose function,
    method and access fields agree have the same compact rendering. *)
Theorem FormatIOCTL_custom_alias (code1 code2 : Z) :
  0x8000 <= ExtractDeviceType code1 ->
  0x8000 <= ExtractDeviceType code2 ->
  ExtractFunction code1 = ExtractFunction code2 ->
  ExtractMethod code1 = ExtractMethod code2 ->
  ExtractAccess code1 = ExtractAccess code2 ->
  FormatIOCTL code1 = FormatIOCTL code2.
Proof.
  intros Hdt1 Hdt2 Hf Hm Ha.
  assert (Hunknown : forall c, 0x8000 <= ExtractDeviceType c ->
            LookupKnownIOCTL c = None
            /\ GetDeviceTypeName (ExtractDeviceType c) = "CUSTOM"%string).
  { intros c Hc. split.
    - unfold LookupKnownIOCTL.
      destruct (knownIOCTLs !! c) as [name|] eqn:Hlookup; [|reflexivity].
      apply knownIOCTLs_device_types in Hlookup. lia.
    - unfold GetDeviceTypeName.
      destruct (deviceTypeNames !! ExtractDeviceType c) as [name|] eqn:Hname.
      + apply deviceTypeNames_keys in Hname. lia.
      + apply Z.leb_le in Hc. rewrite Hc. reflexivity. }
  destruct (Hunknown code1 Hdt1) as [Hk1 Hn1].
  destruct (Hunknown code2 Hdt2) as [Hk2 Hn2].
  unfold FormatIOCTL.
  cbn [DecodeIOCTL KnownName DeviceTypeName Function MethodName AccessName].
  rewrite Hk1, Hk2, Hn1, Hn2, Hf, Hm, Ha. reflexivity.
Qed.

Lemma FormatIOCTL_custom_alias_witness :
  FormatIOCTL 0x80002004 = FormatIOCTL 0xFFFF2004.
Proof.
  apply (FormatIOCTL_custom_alias 0x80002004 0xFFFF2004);
    vm_compute; first [ reflexivity | discriminate ].
Defined.

End Hex.

(** * Further properties of the probe and the scans *)

(** ** Probing through [DeviceIoControl] *)

Section KernelProbe.

Context {KernelState : Type}.
Variable kernel :
  KernelState -> HANDLE -> Z -> Z -> Z -> KernelAnswer * KernelState.

Lemma errnoSwitch_false (errno : Z) :
  errnoSwitch errno = false
  <-> errno ∈ [ERROR_INVALID_FUNCTION; ERROR_NOT_SUPPORTED;
               ERROR_CALL_NOT_IMPLEMENTED].
Proof.
  split.
  - intros Hfalse.
    destruct (decide (errno ∈ [ERROR_INVALID_FUNCTION; ERROR_NOT_SUPPORTED;
                               ERROR_CALL_NOT_IMPLEMENTED])) as [Hin|Hnot];
      [exact Hin|].
    rewrite (errnoSwitch_default errno Hnot) in Hfalse. discriminate.
  - apply errnoSwitch_unrecognized.
Qed.

(** X6. A probe that goes through [DeviceIoControl] never carries an error
    that is not an errno, and it is classified invalid exactly when the
    system call failed (returned 0) with the last-error code 1, 50 or 120.
    In particular a failed call whose last-error code is 0 is reported as
    valid, with no error. *)
Theorem ProbeIOCTL_through_DeviceIoControl (hDevice : HANDLE)
    (ioctlCode : Z) (s : System KernelState) :
  exists result s',
    ProbeIOCTL (kernelDriver kernel) hDevice ioctlCode s = Some (result, s')
    /\ let a := fst (kernel (sys_driver s) hDevice ioctlCode 16 256) in
       (forall description,
          ErrorCode result <> Some (OtherError description))
       /\ BytesReturned result = k_bytesReturned a
       /\ (Valid result = false <->
           k_ret a = 0
           /\ k_lastError a ∈ [ERROR_INVALID_FUNCTION; ERROR_NOT_SUPPORTED;
                               ERROR_CALL_NOT_IMPLEMENTED])
       /\ (k_ret a = 0 -> k_lastError a = 0 ->
           Valid result = true /\ ErrorCode result = None).
Proof.
  destruct (ProbeIOCTL_run (kernelDriver kernel) hDevice ioctlCode s)
    as (c & s' & Hrun & Hcode & (Hh & Hin & Hout) & _ & Hres & _).
  exists (resultOf c), s'. split; [exact Hrun|].
  rewrite Hh, Hcode, Hin, Hout in Hres. unfold kernelDriver in Hres.
  destruct (kernel (sys_driver s) hDevice ioctlCode 16 256) as [a k'].
  cbn [fst] in *. unfold resultOf. cbn [ErrorCode Valid BytesReturned].
  rewrite Hres. clear Hres. unfold DeviceIoControlReturn, GetLastError.
  destruct (Z.eqb_spec (k_ret a) 0) as [Hret|Hret]; cbn [io_err io_bytesReturned].
  - destruct (Z.eqb_spec (k_lastError a) 0) as [Herr|Herr]; cbn [validFor].
    + split; [discriminate|]. split; [reflexivity|].
      split; [|auto].
      split; [discriminate|]. intros [_ Hmem]. rewrite Herr in Hmem.
      rewrite !elem_of_cons, elem_of_nil in Hmem.
      unfold ERROR_INVALID_FUNCTION, ERROR_NOT_SUPPORTED,
        ERROR_CALL_NOT_IMPLEMENTED in Hmem. lia.
    + split; [discriminate|]. split; [reflexivity|].
      split; [|contradiction].
      rewrite errnoSwitch_false. tauto.
  - cbn [validFor]. split; [discriminate|]. split; [reflexivity|].
    split; [|contradiction]. split; [discriminate | tauto].
Qed.

End KernelProbe.

Section KernelBytes.

Context {KernelState : Type}.
Variable kernel :
  KernelState -> HANDLE -> Z -> option (list Z) -> Z -> Z
  -> KernelAnswer * KernelState.

Lemma length_bufferAfter (size : Z) (written : list Z) :
  length (bufferAfter size written) = Z.to_nat size.
Proof.
  unfold bufferAfter. rewrite length_take, length_app, length_replicate. lia.
Qed.


End KernelBytes.


(** ** More on the exhaustive range scan *)

Section ScanMore.

Context {DriverState : Type}.
Variable driver :
  DriverState -> HANDLE -> Z -> Z -> Z -> IoControlResult * DriverState.

Lemma StronglySorted_filter_map {A : Type} (P : A -> Prop)
    `{forall x, Decision (P x)} (key : A -> Z) (l : list A) :
  StronglySorted Z.lt (map key l) ->
  StronglySorted Z.lt (map key (filter P l)).
Proof.
  induction l as [|x l IH]; intros Hsorted; [constructor|].
  cbn [map] in Hsorted. apply StronglySorted_inv in Hsorted as [Hl Hx].
  rewrite filter_cons. destruct (decide (P x)); [|apply IH, Hl].
  cbn [map]. constructor; [apply IH, Hl|].
  rewrite Forall_forall in *. intros y Hy. apply Hx.
  apply list_elem_of_fmap in Hy as (z & -> & Hz).
  apply list_elem_of_filter in Hz as [_ Hz].
  apply list_elem_of_fmap_2, Hz.
Qed.

Lemma madeCalls_nil_inv (s s' : System DriverState) :
  madeCalls driver s [] s' -> s' = s.
Proof.
  intros [Hlog Hans]. cbn in Hans. rewrite app_nil_r in Hlog.
  destruct s, s'. cbn in *. congruence.
Qed.

(** X8. What a range scan returns.  For a range below the largest code and
    with fuel for it, every entry of the result is valid and its code lies
    in [startCode, endCode]; the codes of the result are strictly
    increasing, so no code is reported twice; and an empty range
    ([endCode < startCode]) gives an empty result without any call. *)
Theorem ScanIOCTLRange_result_shape (fuel : nat) (hDevice : HANDLE)
    (startCode endCode : Z) (s : System DriverState) :
  0 <= startCode ->
  endCode < U32.max ->
  (Z.to_nat (endCode - startCode + 1) <= fuel)%nat ->
  exists results s',
    ScanIOCTLRange driver fuel hDevice startCode endCode s
    = Some (results, s')
    /\ Forall (fun r => Valid r = true /\ startCode <= Code r <= endCode)
         results
    /\ StronglySorted Z.lt (map Code results)
    /\ (endCode < startCode -> results = [] /\ s' = s).
Proof.
  intros Hstart Hend Hfuel.
  destruct (ScanIOCTLRange_below_max driver fuel hDevice startCode endCode s
              Hstart Hend Hfuel)
    as (calls & s' & Hrun & Hcalls & Hcodes & _).
  eexists _, s'. split; [exact Hrun|]. split; [|split].
  - apply Forall_forall. intros r Hr.
    apply list_elem_of_fmap in Hr as (c & -> & Hc).
    apply list_elem_of_filter in Hc as [Hrec Hc].
    split; [exact Hrec|]. cbn [resultOf Code].
    apply elem_of_closedRange. rewrite <- Hcodes.
    apply list_elem_of_fmap_2, Hc.
  - rewrite map_map. cbn [resultOf Code].
    apply (StronglySorted_filter_map recognized call_code).
    rewrite Hcodes. apply closedRange_sorted.
  - intros Hempty. rewrite closedRange_nil in Hcodes by lia.
    destruct calls; [|discriminate]. split; [reflexivity|].
    apply madeCalls_nil_inv, Hcalls.
Qed.

(** The scan with results already collected appends to them. *)
Lemma scan_forEach_acc (hDevice : HANDLE) (codes : list Z)
    (acc : list IOCTLProbeResult) (s : System DriverState) :
  forEach codes
    (fun code results =>
       result ← ProbeIOCTL driver hDevice code;
       mret (if Valid result then results ++ [result] else results))
    acc s
  = match forEach codes
            (fun code results =>
               result ← ProbeIOCTL driver hDevice code;
               mret (if Valid result then results ++ [result] else results))
            [] s with
    | Some (results, s') => Some (acc ++ results, s')
    | None => None
    end.
Proof.
  set (body := fun (code : Z) (results : list IOCTLProbeResult) => _).
  revert acc s. induction codes as [|code codes IH]; intros acc s.
  - cbn. rewrite app_nil_r. reflexivity.
  - destruct (ProbeIOCTL_run driver hDevice code s)
      as (c & s1 & Hrun & _).
    assert (Hstep : forall acc', body code acc' s
       = Some (acc' ++ (if Valid (resultOf c) then [resultOf c] else []), s1)).
    { intros acc'. unfold body, mbind, M_bind. rewrite Hrun.
      destruct (Valid (resultOf c)); cbn; rewrite ?app_nil_r; reflexivity. }
    cbn [forEach]. rewrite !Hstep, app_nil_l.
    rewrite (IH (acc ++ _)), (IH (if Valid (resultOf c) then _ else _)).
    destruct (forEach codes body [] s1) as [[results s']|]; [|reflexivity].
    rewrite app_assoc. reflexivity.
Qed.

(** X9. Scans compose: scanning [startCode, middle] and then
    [middle + 1, endCode] from the state the first scan left makes the same
    run as scanning [startCode, endCode] at once, and the result of the
    whole range is the two results one after the other. *)
Theorem ScanIOCTLRange_split (fuel : nat) (hDevice : HANDLE)
    (startCode middle endCode : Z) (s : System DriverState) :
  0 <= startCode ->
  startCode - 1 <= middle <= endCode ->
  endCode < U32.max ->
  (Z.to_nat (endCode - startCode + 1) <= fuel)%nat ->
  exists results1 s1 results2 s2,
    ScanIOCTLRange driver fuel hDevice startCode middle s
    = Some (results1, s1)
    /\ ScanIOCTLRange driver fuel hDevice (middle + 1) endCode s1
       = Some (results2, s2)
    /\ ScanIOCTLRange driver fuel hDevice startCode endCode s
       = Some (results1 ++ results2, s2).
Proof.
  intros Hstart Hmiddle Hend Hfuel.
  destruct (ScanIOCTLRange_below_max driver fuel hDevice startCode middle s)
    as (calls1 & s1 & Hrun1 & _); [lia..|].
  destruct (ScanIOCTLRange_below_max driver fuel hDevice (middle + 1) endCode s1)
    as (calls2 & s2 & Hrun2 & _); [lia..|].
  eexists _, s1, _, s2. split; [exact Hrun1|]. split; [exact Hrun2|].
  unfold ScanIOCTLRange in *.
  rewrite forUint32_forEach in * by lia.
  assert (Hsplit : closedRange startCode endCode
                   = closedRange startCode middle
                     ++ closedRange (middle + 1) endCode).
  { unfold closedRange.
    replace (endCode - startCode + 1)
      with ((middle - startCode + 1) + (endCode - (middle + 1) + 1)) by lia.
    rewrite seqZ_app by lia. f_equal. f_equal. lia. }
  rewrite Hsplit, forEach_app, Hrun1, scan_forEach_acc, Hrun2. reflexivity.
Qed.

End ScanMore.

Lemma ScanIOCTLRange_result_shape_witness :
  exists results s',
    ScanIOCTLRange sampleDriver 16 1 0x70000 0x7000B freshSystem
    = Some (results, s')
    /\ Forall (fun r => Valid r = true /\ 0x70000 <= Code r <= 0x7000B)
         results
    /\ StronglySorted Z.lt (map Code results).
Proof.
  destruct (ScanIOCTLRange_result_shape sampleDriver 16 1 0x70000 0x7000B
              freshSystem)
    as (results & s' & Hrun & Hvalid & Hsorted & _).
  - lia.
  - unfold U32.max. lia.
  - vm_compute. lia.
  - exists results, s'. auto.
Defined.

Lemma ScanIOCTLRange_split_witness :
  exists results1 s1 results2 s2,
    ScanIOCTLRange sampleDriver 16 1 0x70000 0x70004 freshSystem
    = Some (results1, s1)
    /\ ScanIOCTLRange sampleDriver 16 1 (0x70004 + 1) 0x7000B s1
       = Some (results2, s2)
    /\ ScanIOCTLRange sampleDriver 16 1 0x70000 0x7000B freshSystem
       = Some (results1 ++ results2, s2).
Proof.
  apply (ScanIOCTLRange_split sampleDriver 16 1 0x70000 0x70004 0x7000B
           freshSystem).
  - lia.
  - lia.
  - unfold U32.max. lia.
  - vm_compute. lia.
Defined.

(** ** More on the targeted scan *)

Section DiscoverMore.

Context {DriverState : Type}.
Variable driver :
  DriverState -> HANDLE -> Z -> Z -> Z -> IoControlResult * DriverState.

Lemma length_scannedFunctions : length scannedFunctions = 1283%nat.
Proof.
  unfold scannedFunctions. rewrite !length_app, !length_closedRange.
  reflexivity.
Qed.

Lemma length_candidates (deviceType function : Z) :
  length (candidates deviceType function) = 16%nat.
Proof. reflexivity. Qed.

(** A cut makes at least one call when there is a candidate, at most one
    call per candidate, and holds at most one recognized call. *)
Lemma cut_lengths (codes : list Z) (calls : list IoControlCall) :
  cutAtFirstHit codes calls ->
  (length calls <= length codes)%nat
  /\ (codes <> [] -> 1 <= length calls)%nat
  /\ (length (filter recognized calls) <= 1)%nat.
Proof.
  induction 1 as [|code codes c Hcode Hrec|code codes c calls Hcode Hrec Hcut IH].
  - cbn. repeat split; [lia | congruence | lia].
  - rewrite filter_cons_True by exact Hrec. cbn. repeat split; lia.
  - rewrite filter_cons_False by exact Hrec. cbn.
    destruct IH as (Hle & _ & Hone). repeat split; lia.
Qed.

(** A cut without a recognized call has probed every candidate; a cut whose
    calls are all recognized is a single call on the first candidate. *)
Lemma cut_extremes (codes : list Z) (calls : list IoControlCall) :
  cutAtFirstHit codes calls ->
  (Forall (fun c => ~ recognized c) calls -> length calls = length codes)
  /\ (Forall recognized calls ->
        map call_code calls = take 1 codes).
Proof.
  induction 1 as [|code codes c Hcode Hrec|code codes c calls Hcode Hrec Hcut IH].
  - split; reflexivity.
  - split.
    + intros Hall. apply Forall_cons in Hall as [Hc _]. contradiction.
    + intros _. cbn. rewrite Hcode. reflexivity.
  - split.
    + intros Hall. apply Forall_cons in Hall as [_ Hall].
      cbn. f_equal. apply IH, Hall.
    + intros Hall. apply Forall_cons in Hall as [Hc _]. contradiction.
Qed.

Lemma segments_lengths (deviceType : Z) (functions : list Z)
    (segments : list (list IoControlCall)) :
  Forall2 (fun function segment =>
             cutAtFirstHit (candidates deviceType function) segment)
    functions segments ->
  (length functions <= length (concat segments) <= 16 * length functions)%nat
  /\ (length (filter recognized (concat segments)) <= length functions)%nat
  /\ (Forall (fun c => ~ recognized c) (concat segments) ->
        length (concat segments) = (16 * length functions)%nat)
  /\ (Forall recognized (concat segments) ->
        map call_code (concat segments)
        = map (fun function =>
                 CTL_CODE deviceType function METHOD_BUFFERED FILE_ANY_ACCESS)
            functions).
Proof.
  induction 1 as [|f segment fs segs Hcut Hcuts IH].
  - cbn. repeat split; lia.
  - destruct IH as (Hlen & Hhits & Hmiss & Hall).
    destruct (cut_lengths _ _ Hcut) as (Hle & Hge & Hone).
    destruct (cut_extremes _ _ Hcut) as (Hnone & Hevery).
    rewrite length_candidates in *. specialize (Hge ltac:(discriminate)).
    cbn [concat length]. rewrite filter_app, !length_app.
    split; [lia|]. split; [lia|]. split.
    + intros Hno. apply Forall_app in Hno as [Hno1 Hno2].
      rewrite (Hnone Hno1), (Hmiss Hno2). lia.
    + intros Hyes. apply Forall_app in Hyes as [Hyes1 Hyes2].
      rewrite map_app, (Hevery Hyes1), (Hall Hyes2). reflexivity.
Qed.

(** Against a driver that answers every probe alike, every logged probe is
    classified alike. *)
Lemma answered_uniform (v : bool) (hDevice : HANDLE)
    (d d' : DriverState) (calls : list IoControlCall) :
  (forall d0 code,
     validFor (io_err (fst (driver d0 hDevice code 16 256))) = v) ->
  Forall (probeOn hDevice) calls ->
  answered driver d calls d' ->
  Forall (fun c => validFor (io_err (call_result c)) = v) calls.
Proof.
  intros Hdrv Hprobe. revert d.
  induction Hprobe as [|c calls (Hh & Hin & Hout) _ IH]; intros d Hans;
    [constructor|].
  cbn in Hans. destruct Hans as [Hres Hrest].
  constructor; [|eapply IH, Hrest].
  rewrite Hres, Hh, Hin, Hout. apply Hdrv.
Qed.

(** X10. The cost of the targeted scan.  It makes at least 1283 and at most
    20528 device-control calls and reports at most 1283 codes.  Against a
    driver that recognizes no probe it makes all 20528 calls and reports
    nothing; against a driver that recognizes every probe it makes 1283
    calls, one per function value, and reports for each function value its
    code with METHOD_BUFFERED and FILE_ANY_ACCESS. *)
Theorem DiscoverIOCTLsByDeviceType_cost (fuel : nat) (hDevice : HANDLE)
    (deviceType : Z) (s : System DriverState) :
  (513 <= fuel)%nat ->
  exists results calls s',
    DiscoverIOCTLsByDeviceType driver fuel hDevice deviceType s
    = Some (results, s')
    /\ sys_calls s' = sys_calls s ++ calls
    /\ 1283 <= Z.of_nat (length calls) <= 20528
    /\ Z.of_nat (length results) <= 1283
    /\ ((forall d code,
           validFor (io_err (fst (driver d hDevice code 16 256))) = false) ->
        Z.of_nat (length calls) = 20528 /\ results = [])
    /\ ((forall d code,
           validFor (io_err (fst (driver d hDevice code 16 256))) = true) ->
        Z.of_nat (length calls) = 1283
        /\ map Code results
           = map (fun function =>
                    CTL_CODE deviceType function
                      METHOD_BUFFERED FILE_ANY_ACCESS)
               scannedFunctions).
Proof.
  intros Hfuel.
  destruct (DiscoverIOCTLsByDeviceType_run driver fuel hDevice deviceType s Hfuel)
    as (segments & s' & Hrun & [Hlog Hans] & Hcuts & Hprobe).
  destruct (segments_lengths deviceType _ _ Hcuts)
    as (Hlen & Hhits & Hmiss & Hall).
  rewrite length_scannedFunctions in *.
  eexists _, (concat segments), s'.
  split; [exact Hrun|]. split; [exact Hlog|]. split; [lia|].
  split; [rewrite length_map; lia|]. split.
  - intros Hdrv.
    pose proof (answered_uniform false hDevice _ _ _ Hdrv Hprobe Hans) as Hno.
    assert (Hno' : Forall (fun c => ~ recognized c) (concat segments)).
    { eapply Forall_impl; [exact Hno|]. intros c Hc. unfold recognized.
      rewrite Hc. discriminate. }
    split; [rewrite (Hmiss Hno'); lia|].
    assert (Hnil : filter recognized (concat segments) = []).
    { clear - Hno'. induction Hno' as [|c l Hc _ IH]; [reflexivity|].
      rewrite filter_cons_False by exact Hc. exact IH. }
    rewrite Hnil. reflexivity.
  - intros Hdrv.
    pose proof (answered_uniform true hDevice _ _ _ Hdrv Hprobe Hans) as Hyes.
    change (Forall recognized (concat segments)) in Hyes.
    specialize (Hall Hyes).
    assert (Hfilter : filter recognized (concat segments) = concat segments).
    { clear - Hyes. induction Hyes as [|c l Hc _ IH]; [reflexivity|].
      rewrite filter_cons_True by exact Hc. rewrite IH. reflexivity. }
    rewrite Hfilter, map_map. cbn [resultOf Code].
    split; [|exact Hall].
    rewrite <- (length_map call_code), Hall, length_map,
      length_scannedFunctions. reflexivity.
Qed.

(** The function values of the recognized calls of the segments of
    increasing function values are strictly increasing. *)
Lemma hits_sorted (deviceType : Z) (functions : list Z)
    (segments : list (list IoControlCall)) :
  StronglySorted Z.lt functions ->
  (forall f, f ∈ functions -> 0 <= f <= 0xFFF) ->
  Forall2 (fun function segment =>
             cutAtFirstHit (candidates deviceType function) segment)
    functions segments ->
  StronglySorted Z.lt
    (map (fun c => ExtractFunction (call_code c))
       (filter recognized (concat segments))).
Proof.
  intros Hsorted Hrange Hcuts.
  induction Hcuts as [|f segment fs segs Hcut Hcuts IH]; [constructor|].
  apply StronglySorted_inv in Hsorted as [Hsorted Hlt].
  assert (Hrange' : forall f', f' ∈ fs -> 0 <= f' <= 0xFFF).
  { intros f' Hf'. apply Hrange, list_elem_of_further, Hf'. }
  cbn [concat]. rewrite filter_app, map_app.
  apply StronglySorted_app_2; [| |apply IH; assumption].
  - intros x y Hx Hy.
    apply list_elem_of_fmap in Hx as (c & -> & Hc).
    apply list_elem_of_filter in Hc as [_ Hc].
    apply list_elem_of_fmap in Hy as (c' & -> & Hc').
    apply list_elem_of_filter in Hc' as [_ Hc'].
    rewrite (segment_function deviceType f segment c);
      [| apply Hrange, list_elem_of_here | exact Hcut | exact Hc].
    rewrite Forall_forall in Hlt. apply Hlt.
    eapply segments_functions; eassumption.
  - destruct (cut_lengths _ _ Hcut) as (_ & _ & Hone).
    destruct (filter recognized segment) as [|c [|c' l]]; cbn in *;
      [constructor | repeat constructor | lia].
Qed.

(** X11. What the targeted scan probes and reports.  Every code it probes
    carries the low 16 bits of [deviceType] as its device type and a
    function value of the four sub-ranges; every entry of the result is
    valid; and the entries are in strictly increasing order of their
    function value. *)
Theorem DiscoverIOCTLsByDeviceType_result_shape (fuel : nat)
    (hDevice : HANDLE) (deviceType : Z) (s : System DriverState) :
  (513 <= fuel)%nat ->
  exists results calls s',
    DiscoverIOCTLsByDeviceType driver fuel hDevice deviceType s
    = Some (results, s')
    /\ sys_calls s' = sys_calls s ++ calls
    /\ Forall (fun c =>
                 ExtractDeviceType (call_code c) = Z.land deviceType 0xFFFF
                 /\ ExtractFunction (call_code c) ∈ scannedFunctions) calls
    /\ Forall (fun r =>
                 Valid r = true
                 /\ ExtractDeviceType (Code r) = Z.land deviceType 0xFFFF
                 /\ ExtractFunction (Code r) ∈ scannedFunctions) results
    /\ StronglySorted Z.lt (map (fun r => ExtractFunction (Code r)) results).
Proof.
  intros Hfuel.
  destruct (DiscoverIOCTLsByDeviceType_run driver fuel hDevice deviceType s Hfuel)
    as (segments & s' & Hrun & [Hlog _] & Hcuts & _).
  assert (Hcalls : Forall (fun c =>
            ExtractDeviceType (call_code c) = Z.land deviceType 0xFFFF
            /\ ExtractFunction (call_code c) ∈ scannedFunctions)
            (concat segments)).
  { apply Forall_forall. intros c Hc. split.
    - clear - Hcuts Hc.
      induction Hcuts as [|f segment fs segs Hcut _ IH]; cbn [concat] in Hc.
      + apply elem_of_nil in Hc. contradiction.
      + apply elem_of_app in Hc as [Hc|Hc]; [|apply IH, Hc].
        pose proof (cut_codes _ _ c Hcut Hc) as Hcode.
        unfold candidates, candidatesOver, methodCandidates in Hcode.
        rewrite list_elem_of_In, in_flat_map in Hcode.
        destruct Hcode as (method & _ & Hin).
        apply in_map_iff in Hin as (access & <- & _).
        apply ExtractDeviceType_CTL_CODE.
    - eapply segments_functions;
        eauto using scannedFunctions_range. }
  eexists _, (concat segments), s'.
  split; [exact Hrun|]. split; [exact Hlog|]. split; [exact Hcalls|].
  split.
  - apply Forall_forall. intros r Hr.
    apply list_elem_of_fmap in Hr as (c & -> & Hc).
    apply list_elem_of_filter in Hc as [Hrec Hc].
    split; [exact Hrec|].
    rewrite Forall_forall in Hcalls. apply (Hcalls c Hc).
  - rewrite map_map. cbn [resultOf Code].
    apply (hits_sorted deviceType scannedFunctions segments);
      auto using scannedFunctions_sorted, scannedFunctions_range.
Qed.

End DiscoverMore.

Lemma DiscoverIOCTLsByDeviceType_cost_witness :
  exists results calls s',
    DiscoverIOCTLsByDeviceType sampleDriver 513 1 FILE_DEVICE_DISK freshSystem
    = Some (results, s')
    /\ sys_calls s' = calls
    /\ 1283 <= Z.of_nat (length calls) <= 20528
    /\ Z.of_nat (length results) <= 1283.
Proof.
  destruct (DiscoverIOCTLsByDeviceType_cost sampleDriver 513 1
              FILE_DEVICE_DISK freshSystem)
    as (results & calls & s' & Hrun & Hlog & Hcalls & Hresults & _); [lia|].
  exists results, calls, s'. auto.
Defined.

Lemma DiscoverIOCTLsByDeviceType_result_shape_witness :
  exists results s',
    DiscoverIOCTLsByDeviceType sampleDriver 513 1 FILE_DEVICE_DISK freshSystem
    = Some (results, s')
    /\ Forall (fun r =>
                 Valid r = true
                 /\ ExtractDeviceType (Code r) = FILE_DEVICE_DISK
                 /\ ExtractFunction (Code r) ∈ scannedFunctions) results
    /\ StronglySorted Z.lt (map (fun r => ExtractFunction (Code r)) results).
Proof.
  destruct (DiscoverIOCTLsByDeviceType_result_shape sampleDriver 513 1
              FILE_DEVICE_DISK freshSystem)
    as (results & calls & s' & Hrun & _ & _ & Hresults & Hsorted); [lia|].
  exists results, s'. auto.
Defined.

(** * MS-DOS device names *)

(** ** The multi-string parser of [QueryDosDevice] *)

Section MultiString.

Context {T : Type}.
Variable decode : list Z -> T.

Lemma slice_middle {A : Type} (pre cur post : list A) :
  slice (pre ++ cur ++ post) (length pre) (length pre + length cur) = cur.
Proof.
  unfold slice. rewrite drop_app_length.
  replace (length pre + length cur - length pre)%nat with (length cur) by lia.
  apply take_app_length.
Qed.

(** Units that are not NUL only advance the index. *)
Lemma multiStringLoop_skip (buffer cur rest : list Z) (i start : nat)
    (results : list T) :
  0 ∉ cur ->
  multiStringLoop decode buffer (cur ++ rest) i start results
  = multiStringLoop decode buffer rest (i + length cur) start results.
Proof.
  revert i. induction cur as [|unit cur IH]; intros i Hcur.
  - cbn. rewrite Nat.add_0_r. reflexivity.
  - apply not_elem_of_cons in Hcur as [Hunit Hcur].
    cbn [app multiStringLoop length].
    destruct (Z.eqb_spec unit 0) as [->|_]; [contradiction|].
    rewrite IH by exact Hcur. f_equal. lia.
Qed.

(** From the start of a name on, the loop appends the names that follow,
    up to the first empty name or the end of the buffer. *)
Lemma multiStringLoop_names (pre : list Z) (names : list (list Z))
    (tail : list Z) (results : list T) :
  Forall (fun name => name <> [] /\ 0 ∉ name) names ->
  (exists t, tail = 0 :: t) \/ 0 ∉ tail ->
  multiStringLoop decode (pre ++ multiString names ++ tail)
    (multiString names ++ tail) (length pre) (length pre) results
  = results ++ map decode names.
Proof.
  intros Hnames Htail. revert pre results.
  induction Hnames as [|name names [Hne Hzero] _ IH]; intros pre results.
  - cbn [multiString map concat app]. rewrite app_nil_r.
    destruct Htail as [(t & ->) | Hfree].
    + cbn. rewrite Nat.eqb_refl. reflexivity.
    + rewrite <- (app_nil_r tail) at 2.
      rewrite multiStringLoop_skip by exact Hfree. reflexivity.
  - unfold multiString. cbn [map concat]. fold (multiString names).
    rewrite <- !app_assoc.
    rewrite multiStringLoop_skip by exact Hzero.
    cbn [app multiStringLoop]. rewrite Z.eqb_refl.
    destruct (Nat.eqb_spec (length pre + length name) (length pre)) as [Heq|_].
    { destruct name; [contradiction | cbn in Heq; lia]. }
    rewrite slice_middle.
    replace (pre ++ name ++ 0 :: multiString names ++ tail)
      with ((pre ++ name ++ [0]) ++ multiString names ++ tail)
      by (rewrite <- !app_assoc; reflexivity).
    replace (S (length pre + length name))
      with (length (pre ++ name ++ [0]))
      by (rewrite !length_app; cbn; lia).
    rewrite IH, <- app_assoc. reflexivity.
Qed.

(** Every buffer is, in one way, a sequence of NUL-terminated non-empty
    names followed by a tail that starts with a NUL or holds none. *)
Lemma multiString_decompose (buffer : list Z) :
  exists names tail,
    buffer = multiString names ++ tail
    /\ Forall (fun name => name <> [] /\ 0 ∉ name) names
    /\ ((exists t, tail = 0 :: t) \/ 0 ∉ tail).
Proof.
  assert (Hfirst : forall l : list Z,
            exists cur rest, l = cur ++ rest /\ (0 ∉ cur)
                             /\ (rest = [] \/ exists t, rest = 0 :: t)).
  { induction l as [|x l (cur & rest & -> & Hcur & Hrest)].
    - exists [], []. split; [reflexivity|]. split; [apply not_elem_of_nil | auto].
    - destruct (Z.eq_dec x 0) as [->|Hx].
      + exists [], (0 :: cur ++ rest).
        split; [reflexivity|]. split; [apply not_elem_of_nil | eauto].
      + exists (x :: cur), rest. split; [reflexivity|].
        split; [apply not_elem_of_cons; auto | exact Hrest]. }
  remember (length buffer) as n eqn:Hn. revert buffer Hn.
  induction n as [n IH] using lt_wf_ind. intros buffer ->.
  destruct (Hfirst buffer) as (cur & rest & -> & Hcur & [-> | (t & ->)]).
  - exists [], (cur ++ []). split; [reflexivity|].
    split; [constructor|]. right. rewrite app_nil_r. exact Hcur.
  - destruct cur as [|x cur].
    + exists [], (0 :: t). split; [reflexivity|]. split; [constructor | eauto].
    + destruct (IH (length t) ltac:(rewrite length_app; cbn; lia) t eq_refl)
        as (names & tail & -> & Hnames & Htail).
      exists ((x :: cur) :: names), tail.
      split.
      { unfold multiString. cbn [map concat]. rewrite <- !app_assoc.
        reflexivity. }
      split; [|exact Htail].
      constructor; [split; [discriminate | exact Hcur] | exact Hnames].
Qed.

(** X12. The multi-string round trip: a buffer that holds names, each
    non-empty, free of NUL and followed by a NUL, and then either a further
    NUL with anything behind it or data without any NUL, is parsed into
    exactly those names, in order.  The data behind the closing NUL is
    ignored, and so is a last name that no NUL terminates. *)
Theorem parseMultiString_roundtrip (names : list (list Z)) (tail : list Z) :
  Forall (fun name => name <> [] /\ 0 ∉ name) names ->
  (exists t, tail = 0 :: t) \/ 0 ∉ tail ->
  parseMultiString decode (multiString names ++ tail) = map decode names.
Proof.
  intros Hnames Htail. unfold parseMultiString.
  apply (multiStringLoop_names [] names tail [] Hnames Htail).
Qed.

(** X13. What the parser returns on any buffer: the buffer splits into
    NUL-terminated names and a tail, the result is one string per name, in
    order, no name handed to the decoder is empty or contains a NUL, and
    the tail (what comes from the first empty name on, or an unterminated
    rest) contributes nothing.  In particular a buffer that is empty,
    starts with a NUL or holds no NUL at all gives no result. *)
Theorem parseMultiString_spec (buffer : list Z) :
  (exists names tail,
     buffer = multiString names ++ tail
     /\ Forall (fun name => name <> [] /\ 0 ∉ name) names
     /\ ((exists t, tail = 0 :: t) \/ 0 ∉ tail)
     /\ parseMultiString decode buffer = map decode names)
  /\ (buffer = [] \/ (exists t, buffer = 0 :: t) \/ 0 ∉ buffer ->
      parseMultiString decode buffer = []).
Proof.
  split.
  - destruct (multiString_decompose buffer)
      as (names & tail & -> & Hnames & Htail).
    exists names, tail. split; [reflexivity|].
    split; [exact Hnames|]. split; [exact Htail|].
    unfold parseMultiString.
    apply (multiStringLoop_names [] names tail [] Hnames Htail).
  - intros Hcases. unfold parseMultiString.
    assert (Htail : (exists t, buffer = 0 :: t) \/ 0 ∉ buffer).
    { destruct Hcases as [-> | [? | ?]]; auto.
      right. apply not_elem_of_nil. }
    apply (multiStringLoop_names [] [] buffer [] ltac:(constructor) Htail).
Qed.

End MultiString.

Lemma parseMultiString_roundtrip_witness :
  parseMultiString (fun name => name)
    (multiString [[67; 58]; [78; 85; 76]] ++ [0; 88; 0])
  = [[67; 58]; [78; 85; 76]].
Proof.
  apply (parseMultiString_roundtrip (fun name => name)
           [[67; 58]; [78; 85; 76]] [0; 88; 0]).
  - repeat constructor; try discriminate;
      rewrite !elem_of_cons, elem_of_nil; lia.
  - left. eexists. reflexivity.
Defined.

Lemma parseMultiString_spec_witness :
  parseMultiString (fun name => name) [67; 58; 68] = [].
Proof.
  apply (parseMultiString_spec (fun name => name) [67; 58; 68]).
  right. right. rewrite !elem_of_cons, elem_of_nil. lia.
Defined.

(** ** [QueryDosDevice] and [FindSymbolicLinksByPattern] *)

Section DosDeviceProps.

Context {World : Type}.
Variable UTF16PtrFromString : string -> option error.
Variable UTF16ToString : list Z -> string.
Variable ToLower : string -> string.
Variable QueryDosDeviceW :
  World -> option string -> Z -> (Z * Z * list Z) * World.

Local Abbreviation query :=
  (QueryDosDevice UTF16PtrFromString UTF16ToString QueryDosDeviceW).
Local Abbreviation find :=
  (FindSymbolicLinksByPattern UTF16PtrFromString UTF16ToString ToLower
     QueryDosDeviceW).
Local Abbreviation loop :=
  (findLoop UTF16PtrFromString UTF16ToString ToLower QueryDosDeviceW).
Local Abbreviation matches := (matchesPattern ToLower).

(** X14. The outcomes of [QueryDosDevice].  An error always comes with no
    result.  A name that the conversion rejects gives that error without
    any system call.  A system call that returns 0 gives the errno of the
    call as the error, which is not [nil] even when the errno is 0.  A
    system call that succeeds and leaves in the buffer of 65536 code units
    NUL-terminated names closed by a further NUL gives the decoded names
    and no error. *)
Theorem QueryDosDevice_outcomes (deviceName : string) (w : World) :
  (forall results err w',
     QueryDosDevice UTF16PtrFromString UTF16ToString QueryDosDeviceW
       deviceName w
     = ((results, err), w') ->
     err <> None -> results = [])
  /\ (forall e,
        deviceName <> EmptyString ->
        UTF16PtrFromString deviceName = Some e ->
        QueryDosDevice UTF16PtrFromString UTF16ToString QueryDosDeviceW
          deviceName w
        = (([], Some e), w))
  /\ (let deviceNamePtr :=
        if String.eqb deviceName EmptyString then None else Some deviceName in
      (deviceName = EmptyString \/ UTF16PtrFromString deviceName = None) ->
      forall ret errno written w',
        QueryDosDeviceW w deviceNamePtr 65536 = ((ret, errno, written), w') ->
        (ret = 0 ->
         QueryDosDevice UTF16PtrFromString UTF16ToString QueryDosDeviceW
           deviceName w
         = (([], Some (Errno errno)), w'))
        /\ (ret <> 0 ->
            forall names junk,
              Forall (fun name => name <> [] /\ 0 ∉ name) names ->
              bufferAfter 65536 written = multiString names ++ 0 :: junk ->
              QueryDosDevice UTF16PtrFromString UTF16ToString QueryDosDeviceW
                deviceName w
              = ((map UTF16ToString names, None), w'))).
Proof.
  unfold QueryDosDevice. split; [|split].
  - intros results err w'.
    destruct (String.eqb deviceName EmptyString); cbn [negb].
    + destruct (QueryDosDeviceW w None 65536) as [[[ret errno] buffer] w1].
      destruct (ret =? 0); intros [= <- <- <-]; congruence.
    + destruct (UTF16PtrFromString deviceName) as [e|].
      * intros [= <- <- <-]. reflexivity.
      * destruct (QueryDosDeviceW w (Some deviceName) 65536)
          as [[[ret errno] buffer] w1].
        destruct (ret =? 0); intros [= <- <- <-]; congruence.
  - intros e Hne He. apply String.eqb_neq in Hne. rewrite Hne. cbn [negb].
    rewrite He. reflexivity.
  - cbv zeta. intros Hok ret errno written w' Hcall.
    assert (Hconv :
      (if negb (String.eqb deviceName EmptyString)
       then match UTF16PtrFromString deviceName with
            | Some err => inr err
            | None => inl (Some deviceName)
            end
       else inl None)
      = inl (if String.eqb deviceName EmptyString
             then None else Some deviceName)).
    { destruct (String.eqb_spec deviceName EmptyString) as [Heq|Hne];
        [reflexivity|]. cbn [negb].
      destruct Hok as [Heq | ->]; [contradiction | reflexivity]. }
    rewrite Hconv, Hcall. split.
    + intros ->. reflexivity.
    + intros Hret names junk Hnames Hbuffer.
      apply Z.eqb_neq in Hret. cbv zeta. rewrite Hret, Hbuffer.
      unfold parseMultiString.
      do 2 f_equal.
      apply (multiStringLoop_names UTF16ToString [] names (0 :: junk) []);
        eauto.
Qed.

(** Keys enter the result only through a successful, non-empty query of a
    listed device that matches. *)
Lemma findLoop_keys (pattern : string) (devices : list string)
    (results : gmap string (list string)) (w : World)
    (device : string) (targets : list string) :
  (loop pattern devices results w).1 !! device = Some targets ->
  results !! device = Some targets
  \/ (device ∈ devices
      /\ matches pattern device = true
      /\ targets <> []
      /\ exists w0 w1, query device w0 = ((targets, None), w1)).
Proof.
  revert results w. induction devices as [|d devices IH]; intros results w.
  - cbn. auto.
  - cbn [findLoop].
    assert (Hlater : forall results' w',
      (loop pattern devices results' w').1 !! device = Some targets ->
      (results' !! device = Some targets -> 
         results !! device = Some targets
         \/ (device = d /\ matches pattern d = true /\ targets <> []
             /\ exists w0 w1, query d w0 = ((targets, None), w1))) ->
      results !! device = Some targets
      \/ (device ∈ d :: devices /\ matches pattern device = true
          /\ targets <> []
          /\ exists w0 w1, query device w0 = ((targets, None), w1))).
    { intros results' w' Hlookup Hstep.
      destruct (IH _ _ Hlookup) as [Hold | (Hin & Hrest)].
      - destruct (Hstep Hold) as [? | (-> & Hrest)]; [auto|].
        right. split; [apply list_elem_of_here | exact Hrest].
      - right. split; [apply list_elem_of_further, Hin | exact Hrest]. }
    destruct (matches pattern d) eqn:Hmatch; [|intros H; apply (Hlater _ _ H); auto].
    destruct (query d w) as [[targets' err] w'] eqn:Hquery.
    destruct err as [e|]; [intros H; apply (Hlater _ _ H); auto|].
    destruct (Nat.ltb_spec 0 (length targets')) as [Hlen|Hlen];
      [|intros H; apply (Hlater _ _ H); auto].
    intros H. apply (Hlater _ _ H). intros Hins.
    destruct (decide (d = device)) as [->|Hne].
    + rewrite lookup_insert_eq in Hins. injection Hins as ->.
      right. split; [reflexivity|]. split; [reflexivity|].
      split; [destruct targets; [cbn in Hlen; lia | discriminate]|].
      eauto.
    + rewrite lookup_insert_ne in Hins by exact Hne. auto.
Qed.

(** X15. What [FindSymbolicLinksByPattern] returns.  When the listing of
    all devices fails, that error is returned with a nil map and no device
    is queried.  Otherwise a map is returned without error, whatever the
    individual queries answer, and each of its entries is a listed device
    that matches the pattern, with the targets of a successful query of
    that device, which are never empty. *)
Theorem FindSymbolicLinksByPattern_result (pattern : string) (w : World) :
  forall allDevices err w1,
    QueryDosDevice UTF16PtrFromString UTF16ToString QueryDosDeviceW
      EmptyString w
    = ((allDevices, err), w1) ->
    (forall e,
       err = Some e ->
       FindSymbolicLinksByPattern UTF16PtrFromString UTF16ToString ToLower
         QueryDosDeviceW pattern w
       = ((None, Some e), w1))
    /\ (err = None ->
        exists results w2,
          FindSymbolicLinksByPattern UTF16PtrFromString UTF16ToString ToLower
            QueryDosDeviceW pattern w
          = ((Some results, None), w2)
          /\ forall device targets,
               results !! device = Some targets ->
               device ∈ allDevices
               /\ matchesPattern ToLower pattern device = true
               /\ targets <> []
               /\ exists w0 w0',
                    QueryDosDevice UTF16PtrFromString UTF16ToString
                      QueryDosDeviceW device w0
                    = ((targets, None), w0')).
Proof.
  intros allDevices err w1 Hlist.
  unfold FindSymbolicLinksByPattern. rewrite Hlist. split.
  - intros e ->. reflexivity.
  - intros ->.
    destruct (loop pattern allDevices ∅ w1) as [results w2] eqn:Hloop.
    exists results, w2. split; [reflexivity|].
    intros device targets Hlookup.
    pose proof (findLoop_keys pattern allDevices ∅ w1 device targets) as Hkeys.
    rewrite Hloop in Hkeys. destruct (Hkeys Hlookup) as [Hempty | Hrest].
    + rewrite lookup_empty in Hempty. discriminate.
    + exact Hrest.
Qed.

Lemma Contains_empty (s : string) : Contains s EmptyString = true.
Proof. destruct s; reflexivity. Qed.

(** X16. The search is case-insensitive in the pattern, and an empty
    pattern selects every device: two patterns with the same lower-case
    form give the same result from the same state (provided lower-casing
    the empty string gives the empty string). *)
Theorem FindSymbolicLinksByPattern_case_insensitive
    (pattern1 pattern2 : string) (w : World) :
  ToLower EmptyString = EmptyString ->
  ToLower pattern1 = ToLower pattern2 ->
  (forall device, matchesPattern ToLower EmptyString device = true)
  /\ FindSymbolicLinksByPattern UTF16PtrFromString UTF16ToString ToLower
       QueryDosDeviceW pattern1 w
     = FindSymbolicLinksByPattern UTF16PtrFromString UTF16ToString ToLower
         QueryDosDeviceW pattern2 w.
Proof.
  intros Hempty Hlower. split; [reflexivity|].
  assert (Hmatch : forall device,
            matches pattern1 device = matches pattern2 device).
  { intros device. unfold matchesPattern. rewrite Hlower.
    destruct pattern1 as [|c1 p1], pattern2 as [|c2 p2];
      cbn [String.length Nat.eqb orb]; try reflexivity.
    - rewrite <- Hlower, Hempty, Contains_empty. reflexivity.
    - rewrite Hempty, Contains_empty. reflexivity. }
  assert (Hloop : forall devices results w0,
            loop pattern1 devices results w0 = loop pattern2 devices results w0).
  { induction devices as [|d devices IH]; intros results w0; [reflexivity|].
    cbn [findLoop]. rewrite Hmatch.
    destruct (matches pattern2 d); [|apply IH].
    destruct (query d w0) as [[targets err] w'].
    destruct err; [apply IH|].
    destruct (0 <? length targets)%nat; apply IH. }
  unfold FindSymbolicLinksByPattern.
  destruct (query EmptyString w) as [[allDevices err] w1].
  destruct err; [reflexivity|]. rewrite Hloop. reflexivity.
Qed.

(** A system call that leaves the state as it found it makes
    [QueryDosDevice] do the same. *)
Lemma QueryDosDevice_stable (deviceName : string) (w : World) :
  (forall w0 ptr size, (QueryDosDeviceW w0 ptr size).2 = w0) ->
  (query deviceName w).2 = w.
Proof.
  intros Hstable. unfold QueryDosDevice.
  destruct (if negb _ then _ else _) as [ptr|e]; [|reflexivity].
  pose proof (Hstable w ptr 65536) as Hw.
  destruct (QueryDosDeviceW w ptr 65536) as [[[ret errno] buffer] w'].
  cbn in Hw. subst w'. destruct (ret =? 0); reflexivity.
Qed.

Lemma findLoop_stable (pattern : string) (devices : list string)
    (results : gmap string (list string)) (w : World) :
  (forall w0 ptr size, (QueryDosDeviceW w0 ptr size).2 = w0) ->
  (loop pattern devices results w).2 = w
  /\ forall device targets,
       (loop pattern devices results w).1 !! device = Some targets <->
       (device ∈ devices /\ matches pattern device = true
        /\ query device w = ((targets, None), w) /\ targets <> [])
       \/ (results !! device = Some targets
           /\ ~ (device ∈ devices /\ matches pattern device = true
                 /\ exists t, query device w = ((t, None), w) /\ t <> [])).
Proof.
  intros Hstable. revert results.
  induction devices as [|d devices IH]; intros results.
  - cbn [findLoop fst snd]. split; [reflexivity|]. intros device targets.
    split.
    + intros H. right. split; [exact H|].
      intros (Hin & _). apply elem_of_nil in Hin. exact Hin.
    + intros [(Hin & _) | (H & _)]; [apply elem_of_nil in Hin; contradiction|].
      exact H.
  - cbn [findLoop].
    pose proof (QueryDosDevice_stable d w Hstable) as Hw.
    destruct (query d w) as [[t err] w'] eqn:Hquery. cbn in Hw. subst w'.
    assert (Hskip : forall (Hno : ~ (matches pattern d = true
                /\ exists t0, (t, err) = (t0, None) /\ t0 <> [])),
      (loop pattern devices results w).2 = w
      /\ forall device targets,
           (loop pattern devices results w).1 !! device = Some targets <->
           (device ∈ d :: devices /\ matches pattern device = true
            /\ query device w = ((targets, None), w) /\ targets <> [])
           \/ (results !! device = Some targets
               /\ ~ (device ∈ d :: devices /\ matches pattern device = true
                     /\ exists t0, query device w = ((t0, None), w)
                                   /\ t0 <> []))).
    { intros Hno. destruct (IH results) as [Hworld Hlookup].
      split; [exact Hworld|]. intros device targets.
      rewrite Hlookup, !elem_of_cons.
      assert (Hd : device = d ->
                ~ (matches pattern device = true
                   /\ exists t0, query device w = ((t0, None), w) /\ t0 <> [])).
      { intros -> (Hm & t0 & Hq & Hne). apply Hno. split; [exact Hm|].
        exists t0. rewrite Hquery in Hq. injection Hq as -> ->. auto. }
      split.
      - intros [(Hin & Hm & Hq & Hne) | (Hold & Hnot)]; [left; tauto|].
        right. split; [exact Hold|].
        intros ([-> | Hin] & Hm & Hex); [apply (Hd eq_refl); auto | tauto].
      - intros [([-> | Hin] & Hm & Hq & Hne) | (Hold & Hnot)].
        + exfalso. apply (Hd eq_refl). eauto.
        + left. tauto.
        + right. split; [exact Hold|]. tauto. }
    destruct (matches pattern d) eqn:Hmatch;
      [|apply Hskip; intros [? _]; discriminate].
    destruct err as [e|];
      [apply Hskip; intros (_ & t0 & [=] & _)|].
    destruct (Nat.ltb_spec 0 (length t)) as [Hlen|Hlen];
      [|apply Hskip; intros (_ & t0 & [= <-] & Hne);
        destruct t; [contradiction | cbn in Hlen; lia]].
    assert (Hne : t <> []) by (destruct t; [cbn in Hlen; lia | discriminate]).
    destruct (IH (<[d := t]> results)) as [Hworld Hlookup].
    split; [exact Hworld|]. intros device targets.
    rewrite Hlookup, !elem_of_cons. clear Hlookup IH Hskip.
    destruct (decide (device = d)) as [->|Hdne].
    + rewrite lookup_insert_eq, Hquery, Hmatch. split.
      * intros [(Hin & _ & [= <-] & _) | ([= <-] & _)]; left; auto.
      * intros [(_ & _ & [= <-] & _) | (_ & Hnot)].
        -- destruct (decide (d ∈ devices)) as [Hin|Hnin]; [left; auto|].
           right. split; [reflexivity|]. intros (Hin & _). contradiction.
        -- exfalso. apply Hnot. eauto 10.
    + rewrite lookup_insert_ne by congruence. split.
      * intros [(Hin & Hrest) | (Hold & Hnot)]; [left; tauto|].
        right. split; [exact Hold|].
        intros ([? | Hin] & Hrest); [contradiction | tauto].
      * intros [([? | Hin] & Hrest) | (Hold & Hnot)];
          [contradiction | left; tauto |].
        right. split; [exact Hold|]. tauto.
Qed.

(** X17. Against a system whose calls leave its state unchanged, the map
    [FindSymbolicLinksByPattern] returns holds exactly the listed devices
    that match the pattern and whose own query succeeds with at least one
    target, each with the targets of that query. *)
Theorem FindSymbolicLinksByPattern_exact (pattern : string) (w : World)
    (allDevices : list string) :
  (forall w0 ptr size, (QueryDosDeviceW w0 ptr size).2 = w0) ->
  QueryDosDevice UTF16PtrFromString UTF16ToString QueryDosDeviceW
    EmptyString w
  = ((allDevices, None), w) ->
  exists results,
    FindSymbolicLinksByPattern UTF16PtrFromString UTF16ToString ToLower
      QueryDosDeviceW pattern w
    = ((Some results, None), w)
    /\ forall device targets,
         results !! device = Some targets <->
         device ∈ allDevices
         /\ matchesPattern ToLower pattern device = true
         /\ QueryDosDevice UTF16PtrFromString UTF16ToString QueryDosDeviceW
              device w
            = ((targets, None), w)
         /\ targets <> [].
Proof.
  intros Hstable Hlist. unfold FindSymbolicLinksByPattern. rewrite Hlist.
  destruct (findLoop_stable pattern allDevices ∅ w Hstable) as [Hworld Hlookup].
  destruct (loop pattern allDevices ∅ w) as [results w'].
  cbn in Hworld, Hlookup. subst w'.
  exists results. split; [reflexivity|].
  intros device targets. rewrite Hlookup, lookup_empty.
  split; [intros [H | [[=] _]]; exact H | auto].
Qed.

End DosDeviceProps.

Lemma QueryDosDevice_outcomes_witness :
  QueryDosDevice sampleUTF16PtrFromString sampleUTF16ToString
    sampleQueryDosDeviceW "NUL" tt
  = (([], Some (Errno 2)), tt).
Proof.
  destruct (QueryDosDevice_outcomes sampleUTF16PtrFromString
              sampleUTF16ToString sampleQueryDosDeviceW "NUL" tt)
    as (_ & _ & Hcall).
  destruct (Hcall (or_intror eq_refl) 0 2 [] tt eq_refl) as [Hfail _].
  apply Hfail. reflexivity.
Defined.

Lemma FindSymbolicLinksByPattern_result_witness :
  exists results w2,
    FindSymbolicLinksByPattern sampleUTF16PtrFromString sampleUTF16ToString
      sampleToLower sampleQueryDosDeviceW "clfs" tt
    = ((Some results, None), w2)
    /\ forall device targets,
         results !! device = Some targets ->
         device ∈ ["C:"; "CLFS"; "NUL"]%string /\ targets <> [].
Proof.
  destruct (FindSymbolicLinksByPattern_result sampleUTF16PtrFromString
              sampleUTF16ToString sampleToLower sampleQueryDosDeviceW
              "clfs" tt ["C:"; "CLFS"; "NUL"]%string None tt)
    as [_ Hfound].
  - vm_compute. reflexivity.
  - destruct (Hfound eq_refl) as (results & w2 & Hrun & Hentries).
    exists results, w2. split; [exact Hrun|].
    intros device targets Hlookup.
    destruct (Hentries device targets Hlookup) as (Hin & _ & Hne & _). auto.
Defined.

Lemma FindSymbolicLinksByPattern_case_insensitive_witness :
  FindSymbolicLinksByPattern sampleUTF16PtrFromString sampleUTF16ToString
    sampleToLower sampleQueryDosDeviceW "CLFS" tt
  = FindSymbolicLinksByPattern sampleUTF16PtrFromString sampleUTF16ToString
      sampleToLower sampleQueryDosDeviceW "clfs" tt.
Proof.
  apply (FindSymbolicLinksByPattern_case_insensitive sampleUTF16PtrFromString
           sampleUTF16ToString sampleToLower sampleQueryDosDeviceW
           "CLFS" "clfs" tt).
  - reflexivity.
  - vm_compute. reflexivity.
Defined.

Lemma FindSymbolicLinksByPattern_exact_witness :
  exists results,
    FindSymbolicLinksByPattern sampleUTF16PtrFromString sampleUTF16ToString
      sampleToLower sampleQueryDosDeviceW "clfs" tt
    = ((Some results, None), tt)
    /\ results !! "CLFS"%string = Some ["\Device\clfs"%string].
Proof.
  destruct (FindSymbolicLinksByPattern_exact sampleUTF16PtrFromString
              sampleUTF16ToString sampleToLower sampleQueryDosDeviceW
              "clfs" tt ["C:"; "CLFS"; "NUL"]%string)
    as (results & Hrun & Hentries).
  - intros w0 ptr size. reflexivity.
  - vm_compute. reflexivity.
  - exists results. split; [exact Hrun|].
    apply Hentries. split; [|split; [|split]].
    + rewrite !elem_of_cons. auto.
    + vm_compute. reflexivity.
    + vm_compute. reflexivity.
    + discriminate.
Defined.

(** * Handles, status codes and the growing buffer *)

Section CreateFileProps.

Context {World SecurityAttributes : Type}.
Variable bits : Z.
Variable UTF16PtrFromString : string -> option error.
Variable CreateFileW :
  World -> CreateFileArgs SecurityAttributes -> (Z * Z) * World.


End CreateFileProps.

Section StatusProps.

(** X19. The severity tests of an NTSTATUS.  For a 32-bit status at most
    one of [IsError], [IsWarning] and [IsInformational] holds, and none
    holds exactly for the statuses below [0x40000000]; [IsSuccess] holds
    for 0 only, so that the other statuses of success severity (those in
    [1, 0x3FFFFFFF]) pass none of the four tests. *)
Theorem NTSTATUS_severity_tests (status : Z) :
  U32.is_u32 status ->
  (NTSTATUS.IsError status = true <-> 0xC0000000 <= status)
  /\ (NTSTATUS.IsWarning status = true <-> 0x80000000 <= status < 0xC0000000)
  /\ (NTSTATUS.IsInformational status = true <->
      0x40000000 <= status < 0x80000000)
  /\ (NTSTATUS.IsSuccess status = true <-> status = 0)
  /\ (0 < status < 0x40000000 ->
      NTSTATUS.IsSuccess status = false
      /\ NTSTATUS.IsError status = false
      /\ NTSTATUS.IsWarning status = false
      /\ NTSTATUS.IsInformational status = false).
Proof.
  unfold U32.is_u32, U32.modulus. intros Hu32.
  unfold NTSTATUS.IsError, NTSTATUS.IsWarning, NTSTATUS.IsInformational,
    NTSTATUS.IsSuccess, NTSTATUS.STATUS_SEVERITY_ERROR,
    NTSTATUS.STATUS_SEVERITY_WARNING, NTSTATUS.STATUS_SEVERITY_INFORMATIONAL,
    U32.shr.
  rewrite Z.shiftr_div_pow2 by lia. change (2 ^ 30) with 0x40000000.
  change (2 ^ 32) with 0x100000000 in Hu32.
  rewrite !Z.eqb_eq, !Z.eqb_neq.
  assert (Hdiv : status = 0x40000000 * (status / 0x40000000)
                          + status mod 0x40000000) by (apply Z.div_mod; lia).
  pose proof (Z.mod_pos_bound status 0x40000000 ltac:(lia)) as Hmod.
  repeat split; intros; lia.
Qed.

Lemma NTSTATUS_severity_tests_witness :
  NTSTATUS.IsSuccess 0x103 = false /\ NTSTATUS.IsError 0x103 = false
  /\ NTSTATUS.IsWarning 0x103 = false
  /\ NTSTATUS.IsInformational 0x103 = false.
Proof.
  apply (NTSTATUS_severity_tests 0x103);
    unfold U32.is_u32, U32.modulus; lia.
Defined.

End StatusProps.

Section NtQueryProps.

Context {KernelState : Type}.
Variable ntQuery : KernelState -> Z -> Z -> NtAnswer * KernelState.

(** What the loop adds to the sizes and what it returns. *)
Lemma ntQueryLoop_shape (attempts : nat) (class size returnLen : Z)
    (k : KernelState) (sizes : list Z) :
  0 <= size ->
  let '(outcome, k', sizes') :=
    ntQueryLoop ntQuery attempts class size returnLen k sizes in
  exists new,
    sizes' = sizes ++ new
    /\ (length new <= attempts)%nat
    /\ Forall (fun sz => 0 < sz) new
    /\ (size <> 0 -> (0 < attempts)%nat -> head new = Some size)
    /\ match outcome with
       | Returned (Some data, status) =>
           status = 0
           /\ exists sz, last new = Some sz
                         /\ 0 < Z.of_nat (length data) <= sz
       | Returned (None, status) => status <> 0
       | Panicked => True
       end.
Proof.
  revert size returnLen k sizes.
  induction attempts as [|attempts IH]; intros size returnLen k sizes Hsize.
  - cbn. exists []. rewrite app_nil_r.
    split; [reflexivity|]. split; [cbn; lia|]. split; [constructor|].
    split; [lia | discriminate].
  - cbn [ntQueryLoop].
    destruct (Z.eqb_spec size 0) as [->|Hnz].
    { exists []. rewrite app_nil_r.
      split; [reflexivity|]. split; [cbn; lia|]. split; [constructor|].
      split; [congruence | exact I]. }
    destruct (ntQuery k class size) as [a k1].
    set (returnLen' := match nt_returnLength a with
                       | Some n => n | None => returnLen end).
    destruct (Z.eqb_spec (nt_status a) 0) as [Hok|Hfail].
    + destruct ((0 <? returnLen') && (returnLen' <=? size)) eqn:Htrim.
      * apply andb_true_iff in Htrim as [Hpos Hle].
        apply Z.ltb_lt in Hpos. apply Z.leb_le in Hle.
        exists [size]. split; [reflexivity|].
        split; [cbn; lia|]. split; [repeat constructor; lia|].
        split; [reflexivity|]. split; [exact Hok|].
        exists size. split; [reflexivity|].
        rewrite length_take, length_bufferAfter. lia.
      * exists [size]. split; [reflexivity|].
        split; [cbn; lia|]. split; [repeat constructor; lia|].
        split; [reflexivity|]. split; [exact Hok|].
        exists size. split; [reflexivity|].
        rewrite length_bufferAfter. lia.
    + destruct (Z.eqb_spec (nt_status a) STATUS_INFO_LENGTH_MISMATCH) as [Hmis|Hother].
      * set (size' := if 0 <? returnLen' then returnLen'
                      else U32.wrap32 (size * 2)).
        assert (Hsize' : 0 <= size').
        { unfold size'. destruct (Z.ltb_spec 0 returnLen'); [lia|].
          unfold U32.wrap32, U32.modulus.
          apply Z.mod_pos_bound. lia. }
        specialize (IH size' returnLen' k1 (sizes ++ [size]) Hsize').
        destruct (ntQueryLoop ntQuery attempts class size' returnLen' k1
                    (sizes ++ [size])) as [[outcome k'] sizes'].
        destruct IH as (new & -> & Hlen & Hpos & _ & Hout).
        exists (size :: new). split; [rewrite <- app_assoc; reflexivity|].
        split; [cbn; lia|]. split; [constructor; [lia | exact Hpos]|].
        split; [reflexivity|].
        destruct outcome as [[[data|] status]|]; try exact Hout.
        destruct Hout as (Hst & sz & Hlast & Hdata).
        split; [exact Hst|]. exists sz. split; [|exact Hdata].
        destruct new; [discriminate | exact Hlast].
      * exists [size]. split; [reflexivity|].
        split; [cbn; lia|]. split; [repeat constructor; lia|].
        split; [reflexivity | exact Hfail].
Qed.

(** X20. [NtQuerySystemInformation] calls the system at least once and at
    most 8 times, first with [initialSize] (65536 when that is 0) and never
    with an empty buffer.  When it returns data, the status is 0 and the
    data is not empty and no longer than the last buffer; when it returns
    no data, the status is not 0. *)
Theorem NtQuerySystemInformation_shape (class initialSize : Z)
    (k : KernelState) :
  0 <= initialSize ->
  let '(outcome, k', sizes) :=
    NtQuerySystemInformation ntQuery class initialSize k in
  (1 <= length sizes <= 8)%nat
  /\ head sizes = Some (if initialSize =? 0 then 65536 else initialSize)
  /\ Forall (fun sz => 0 < sz) sizes
  /\ match outcome with
     | Returned (Some data, status) =>
         status = 0
         /\ exists sz, last sizes = Some sz
                       /\ 0 < Z.of_nat (length data) <= sz
     | Returned (None, status) => status <> 0
     | Panicked => True
     end.
Proof.
  intros Hinit. unfold NtQuerySystemInformation.
  set (size := if initialSize =? 0 then 65536 else initialSize).
  assert (Hsize : 0 < size).
  { unfold size. destruct (Z.eqb_spec initialSize 0); lia. }
  pose proof (ntQueryLoop_shape 8 class size 0 k [] ltac:(lia)) as Hshape.
  destruct (ntQueryLoop ntQuery 8 class size 0 k []) as [[outcome k'] sizes].
  destruct Hshape as (new & -> & Hlen & Hpos & Hhead & Hout).
  cbn [app]. specialize (Hhead ltac:(lia) ltac:(lia)).
  split; [destruct new; [discriminate | cbn in *; lia]|].
  split; [exact Hhead|]. split; [exact Hpos | exact Hout].
Qed.

(** Against a system that always answers "length mismatch" and stores no
    length, the loop panics as soon as doubling has wrapped the size to 0. *)
Lemma ntQueryLoop_wraps (attempts : nat) (class size : Z)
    (k : KernelState) (sizes : list Z) :
  (forall k0 sz,
     nt_status (ntQuery k0 class sz).1 = STATUS_INFO_LENGTH_MISMATCH
     /\ nt_returnLength (ntQuery k0 class sz).1 = None) ->
  0 <= size < U32.modulus ->
  (0 < attempts)%nat ->
  U32.wrap32 (size * 2 ^ Z.of_nat (attempts - 1)) = 0 ->
  exists k' sizes',
    ntQueryLoop ntQuery attempts class size 0 k sizes
    = (Panicked, k', sizes')
    /\ (length sizes' < length sizes + attempts)%nat.
Proof.
  intros Hkernel. revert size k sizes.
  induction attempts as [|attempts IH]; intros size k sizes Hsize Hpos Hwrap;
    [lia|].
  cbn [ntQueryLoop].
  replace (S attempts - 1)%nat with attempts in Hwrap by lia.
  destruct (Z.eqb_spec size 0) as [->|Hnz].
  { exists k, sizes. split; [reflexivity | lia]. }
  destruct (Hkernel k size) as [Hstatus Hlen].
  destruct (ntQuery k class size) as [a k1]. cbn [fst] in Hstatus, Hlen.
  rewrite Hlen, Hstatus.
  change (STATUS_INFO_LENGTH_MISMATCH =? 0) with false.
  rewrite Z.eqb_refl. change (0 <? 0) with false. cbv iota.
  assert (Hattempts : (0 < attempts)%nat).
  { destruct attempts; [|lia]. cbn in Hwrap.
    unfold U32.wrap32 in Hwrap.
    rewrite Z.mul_1_r, Z.mod_small in Hwrap by exact Hsize. contradiction. }
  destruct (IH (U32.wrap32 (size * 2)) k1 (sizes ++ [size]))
    as (k' & sizes' & Heq & Hlen').
  - unfold U32.wrap32, U32.modulus. apply Z.mod_pos_bound. lia.
  - exact Hattempts.
  - unfold U32.wrap32 in *. rewrite Z.mul_mod_idemp_l by (unfold U32.modulus; lia).
    rewrite <- Hwrap. f_equal.
    replace (Z.of_nat attempts) with (Z.succ (Z.of_nat (attempts - 1))) by lia.
    rewrite Z.pow_succ_r by lia. lia.
  - exists k', sizes'. split; [exact Heq|].
    rewrite length_app in Hlen'. cbn in Hlen'. lia.
Qed.

(** Against such a system and as long as doubling does not overflow, the
    loop hands over the doubled sizes and gives up. *)
Lemma ntQueryLoop_doubles (attempts : nat) (class size : Z)
    (k : KernelState) (sizes : list Z) :
  (forall k0 sz,
     nt_status (ntQuery k0 class sz).1 = STATUS_INFO_LENGTH_MISMATCH
     /\ nt_returnLength (ntQuery k0 class sz).1 = None) ->
  attempts = 0%nat
  \/ (0 < size /\ size * 2 ^ Z.of_nat (attempts - 1) < U32.modulus) ->
  exists k',
    ntQueryLoop ntQuery attempts class size 0 k sizes
    = (Returned (None, STATUS_INFO_LENGTH_MISMATCH), k',
       sizes ++ map (fun i => size * 2 ^ i) (seqZ 0 (Z.of_nat attempts))).
Proof.
  intros Hkernel. revert size k sizes.
  induction attempts as [|attempts IH]; intros size k sizes Hcond.
  - exists k. cbn. rewrite app_nil_r. reflexivity.
  - destruct Hcond as [|[Hpos Hbound]]; [lia|].
    replace (S attempts - 1)%nat with attempts in Hbound by lia.
    cbn [ntQueryLoop].
    destruct (Z.eqb_spec size 0) as [|_]; [lia|].
    destruct (Hkernel k size) as [Hstatus Hlen].
    destruct (ntQuery k class size) as [a k1]. cbn [fst] in Hstatus, Hlen.
    rewrite Hlen, Hstatus.
    change (STATUS_INFO_LENGTH_MISMATCH =? 0) with false.
    rewrite Z.eqb_refl. change (0 <? 0) with false. cbv iota.
    assert (Hseq : map (fun i => size * 2 ^ i) (seqZ 0 (Z.of_nat (S attempts)))
                   = size :: map (fun i => (size * 2) * 2 ^ i)
                               (seqZ 0 (Z.of_nat attempts))).
    { rewrite seqZ_cons by lia. cbn [map].
      rewrite Z.pow_0_r, Z.mul_1_r. f_equal.
      replace (Z.pred (Z.of_nat (S attempts))) with (Z.of_nat attempts) by lia.
      change (Z.succ 0) with (1 + 0).
      rewrite <- (fmap_add_seqZ 1 0).
      change (Z.add 1 <$> seqZ 0 (Z.of_nat attempts))
        with (map (Z.add 1) (seqZ 0 (Z.of_nat attempts))).
      rewrite map_map. apply map_ext_in. intros i Hi.
      apply list_elem_of_In, elem_of_seqZ in Hi.
      rewrite Z.pow_add_r by lia. change (2 ^ 1) with 2. lia. }
    destruct attempts as [|attempts].
    + destruct (IH (U32.wrap32 (size * 2)) k1 (sizes ++ [size]) (or_introl eq_refl))
        as (k' & Heq).
      exists k'. rewrite Heq. cbn [Z.of_nat seqZ]. rewrite Hseq.
      rewrite <- app_assoc. reflexivity.
    + assert (Hdouble : U32.wrap32 (size * 2) = size * 2).
      { unfold U32.wrap32. apply Z.mod_small. split; [lia|].
        eapply Z.le_lt_trans; [|exact Hbound].
        apply Z.mul_le_mono_nonneg_l; [lia|].
        change 2 with (2 ^ 1) at 1. apply Z.pow_le_mono_r; lia. }
      rewrite Hdouble.
      destruct (IH (size * 2) k1 (sizes ++ [size])) as (k' & Heq).
      { right. split; [lia|].
        replace (S attempts - 1)%nat with attempts by lia.
        replace (Z.of_nat (S attempts)) with (Z.succ (Z.of_nat attempts))
          in Hbound by lia.
        rewrite Z.pow_succ_r in Hbound by lia. lia. }
      exists k'. rewrite Heq, Hseq, <- app_assoc. reflexivity.
Qed.

(** X21. Against a system that always answers "length mismatch" without
    storing a length, [NtQuerySystemInformation] started with a buffer
    below 32 MiB makes exactly 8 calls, doubling the buffer each time, and
    gives up with no data and the status 0xC0000004. *)
Theorem NtQuerySystemInformation_gives_up (class initialSize : Z)
    (k : KernelState) :
  (forall k0 sz,
     nt_status (ntQuery k0 class sz).1 = STATUS_INFO_LENGTH_MISMATCH
     /\ nt_returnLength (ntQuery k0 class sz).1 = None) ->
  0 <= initialSize < 0x2000000 ->
  exists k',
    NtQuerySystemInformation ntQuery class initialSize k
    = (Returned (None, 0xC0000004), k',
       map (fun i => (if initialSize =? 0 then 65536 else initialSize) * 2 ^ i)
         [0; 1; 2; 3; 4; 5; 6; 7]).
Proof.
  intros Hkernel Hinit. unfold NtQuerySystemInformation.
  destruct (ntQueryLoop_doubles 8 class
              (if initialSize =? 0 then 65536 else initialSize) k []
              Hkernel) as (k' & Heq).
  { right. unfold U32.modulus. change (2 ^ Z.of_nat (8 - 1)) with 128.
    destruct (Z.eqb_spec initialSize 0); lia. }
  exists k'. rewrite Heq. reflexivity.
Qed.

(** X22. Against the same system, a start size that is a multiple of
    [0x2000000] (32 MiB) makes the doubling wrap around to 0 within the 8
    attempts; the function then panics on the empty buffer, after fewer
    than 8 calls. *)
Theorem NtQuerySystemInformation_wraps (class initialSize factor : Z)
    (k : KernelState) :
  (forall k0 sz,
     nt_status (ntQuery k0 class sz).1 = STATUS_INFO_LENGTH_MISMATCH
     /\ nt_returnLength (ntQuery k0 class sz).1 = None) ->
  0 < initialSize < U32.modulus ->
  initialSize = factor * 0x2000000 ->
  exists k' sizes,
    NtQuerySystemInformation ntQuery class initialSize k
    = (Panicked, k', sizes)
    /\ (length sizes < 8)%nat.
Proof.
  intros Hkernel Hinit Hfactor. unfold NtQuerySystemInformation.
  destruct (Z.eqb_spec initialSize 0) as [|_]; [lia|].
  destruct (ntQueryLoop_wraps 8 class initialSize k [] Hkernel)
    as (k' & sizes & Heq & Hlen).
  - lia.
  - lia.
  - unfold U32.wrap32, U32.modulus. change (2 ^ Z.of_nat (8 - 1)) with 128.
    rewrite Hfactor.
    replace (factor * 33554432 * 128) with (factor * 2 ^ 32) by lia.
    apply Z.mod_mul. lia.
  - exists k', sizes. split; [exact Heq | exact Hlen].
Qed.

End NtQueryProps.

Lemma NtQuerySystemInformation_shape_witness :
  let '(outcome, k', sizes) :=
    NtQuerySystemInformation (sampleNtQuery 40) 5 16 tt in
  (1 <= length sizes <= 8)%nat
  /\ head sizes = Some 16
  /\ Forall (fun sz => 0 < sz) sizes
  /\ match outcome with
     | Returned (Some data, status) =>
         status = 0
         /\ exists sz, last sizes = Some sz
                       /\ 0 < Z.of_nat (length data) <= sz
     | Returned (None, status) => status <> 0
     | Panicked => True
     end.
Proof.
  apply (NtQuerySystemInformation_shape (sampleNtQuery 40) 5 16 tt). lia.
Defined.

Lemma NtQuerySystemInformation_gives_up_witness :
  exists k',
    NtQuerySystemInformation stubbornNtQuery 5 0 tt
    = (Returned (None, 0xC0000004), k',
       [65536; 131072; 262144; 524288; 1048576; 2097152; 4194304; 8388608]).
Proof.
  apply (NtQuerySystemInformation_gives_up stubbornNtQuery 5 0 tt).
  - intros k0 sz. split; reflexivity.
  - lia.
Defined.

Lemma NtQuerySystemInformation_wraps_witness :
  exists k' sizes,
    NtQuerySystemInformation stubbornNtQuery 5 0x2000000 tt
    = (Panicked, k', sizes)
    /\ (length sizes < 8)%nat.
Proof.
  apply (NtQuerySystemInformation_wraps stubbornNtQuery 5 0x2000000 1 tt).
  - intros k0 sz. split; reflexivity.
  - unfold U32.modulus. lia.
  - reflexivity.
Defined.
